(** * Reactive search params: a shallow embedding of [src/index.ts]

    The module keeps one shared [URLSearchParams] object inside a Vue
    [shallowRef], one process-wide [popstate] listener guarded by a boolean,
    and hands out scalar ([useSearchParam]) and array ([useSearchParamArray])
    refs whose getters and setters go through per-binding caches.

    The embedding is by explicit state passing.  Every closure variable of
    the source ([writableValue], [readableValue], [_trigger]) is a field of
    the binding's record, the module-level [_internal] object and the host
    environment ([window], effect scopes, the [nextTick] queue) are fields of
    [State]. *)

From stdpp Require Import base list strings option.
From Stdlib Require Import Lia.

(** ** The host's [URLSearchParams]

    An ordered list of name/value pairs, with the methods the source calls,
    as the URL standard defines them. *)
Module URLSearchParams.

Definition t : Type := list (string * string).

(** [getAll(name)]: the values of every pair called [name], in list order. *)
Fixpoint getAll (name : string) (p : t) : list string :=
  match p with
  | [] => []
  | (k, v) :: rest =>
      if String.eqb k name then v :: getAll name rest else getAll name rest
  end.

(** [get(name)]: the value of the first pair called [name], or [null]. *)
Fixpoint get (name : string) (p : t) : option string :=
  match p with
  | [] => None
  | (k, v) :: rest => if String.eqb k name then Some v else get name rest
  end.

Fixpoint has (name : string) (p : t) : bool :=
  match p with
  | [] => false
  | (k, _) :: rest => String.eqb k name || has name rest
  end.

(** [delete(name)]: removes every pair called [name]. *)
Fixpoint delete (name : string) (p : t) : t :=
  match p with
  | [] => []
  | (k, v) :: rest =>
      if String.eqb k name then delete name rest
      else (k, v) :: delete name rest
  end.

(** [append(name, value)]: a new pair at the end. *)
Definition append (name value : string) (p : t) : t :=
  p ++ [(name, value)].

(** [set(name, value)]: the first pair called [name] takes the value and
    the other pairs of that name go; without such a pair, [append]. *)
Fixpoint set (name value : string) (p : t) : t :=
  match p with
  | [] => [(name, value)]
  | (k, v) :: rest =>
      if String.eqb k name then (k, value) :: delete name rest
      else (k, v) :: set name value rest
  end.

End URLSearchParams.

(** ** Strict equality on raw values *)

(** [a === b] on [string | null] (and on [a[i]], where a missing index reads
    [undefined]). *)
Definition strictEq (a b : option string) : bool :=
  match a, b with
  | Some x, Some y => String.eqb x y
  | None, None => true
  | _, _ => false
  end.

(** [isEqualArrays]: the length test, then the indexed loop. *)
Definition isEqualArrays (a b : list string) : bool :=
  if negb (Nat.eqb (length a) (length b)) then false
  else forallb (fun i => strictEq (a !! i) (b !! i)) (seq 0 (length a)).

(** ** The window *)

(** The part of the window a [navigate] function works on. *)
Record History : Type := {
  search : URLSearchParams.t;        (* location.search, parsed *)
  replaced : list URLSearchParams.t; (* history.replaceState calls, oldest first *)
}.

Record Window : Type := {
  listeners : list nat;   (* live "popstate" listeners, by closure *)
  history : History;
}.

(** The [navigate] option: user code that moves the location to the given
    search params. *)
Definition Navigate : Type := URLSearchParams.t -> History -> History.

Definition defaultNavigate : Navigate := fun searchParams h =>
  {| search := searchParams;
     replaced := replaced h ++ [searchParams] |}.

(** A call either returns, throws the [ReferenceError] of touching [window]
    where there is none, or cannot be made at all (a ref or a scope that
    does not exist). *)
Inductive Outcome (A : Type) : Type :=
| Returned (a : A)
| Threw
| Invalid.
Arguments Returned {A} a.
Arguments Threw {A}.
Arguments Invalid {A}.

(** What an effect scope runs when it is disposed. *)
Inductive Cleanup : Type :=
| Unlisten (l : nat)    (* the hook of [listenPopstate] for listener [l] *)
| StopWatch (b : nat).  (* the watcher of binding [b] *)

Record Scope : Type := {
  active : bool;
  cleanups : list Cleanup;
}.

(** The listeners a list of cleanups will remove, and the bindings whose
    watchers it will stop. *)
Definition unlistens (cs : list Cleanup) : list nat :=
  flat_map (fun c => match c with Unlisten l => [l] | StopWatch _ => [] end) cs.

Definition watchers (cs : list Cleanup) : list nat :=
  flat_map (fun c => match c with StopWatch b => [b] | Unlisten _ => [] end) cs.

Definition hooksOf (ss : list Scope) : list nat :=
  flat_map (fun sc => if active sc then unlistens (cleanups sc) else []) ss.

Definition onScopeDispose (c : Cleanup) (sc : Scope) : Scope :=
  {| active := active sc; cleanups := cleanups sc ++ [c] |}.

Definition bind {A B : Type} (m : Outcome A) (k : A -> Outcome B) : Outcome B :=
  match m with
  | Returned a => k a
  | Threw => Threw
  | Invalid => Invalid
  end.

Section Bindings.

(** The value type of the refs. *)
Context {T : Type}.

(** The [serializer] option; [R] is [string | null] for a scalar ref and
    [string] for the items of an array ref. *)
Record Serializer (R : Type) : Type := {
  read : R -> T;
  write : T -> R;
}.
#[global] Arguments read {R} s _.
#[global] Arguments write {R} s _.

(** The variables one call of [useSearchParam] / [useSearchParamArray]
    closes over.  [watching] tells whether the sync watcher on
    [_internal.searchParams] exists and has not been stopped; [triggered]
    counts the calls of [_trigger], that is the notifications sent to the
    observers of the ref. *)
Record Closure (R W V : Type) : Type := {
  name : string;
  serializer : Serializer R;
  navigate : Navigate;
  writableValue : W;
  readableValue : V;
  watching : bool;
  triggered : nat;
}.
#[global] Arguments name {R W V} c.
#[global] Arguments serializer {R W V} c.
#[global] Arguments navigate {R W V} c.
#[global] Arguments writableValue {R W V} c.
#[global] Arguments readableValue {R W V} c.
#[global] Arguments watching {R W V} c.
#[global] Arguments triggered {R W V} c.

Inductive Binding : Type :=
| Scalar (c : Closure (option string) (option string) T)
| Array (c : Closure string (list string) (list T)).

(** [_internal], the window, the scopes and the [nextTick] queue.  The
    [shallowRef] holds a reference to one [URLSearchParams] object:
    [searchParams] is that object's content, [detached] keeps the objects
    the ref held before, oldest first, so the identity of the current
    object is [length detached]. *)
Record State : Type := {
  window : option Window;
  detached : list URLSearchParams.t;
  searchParams : URLSearchParams.t;
  isListeningPopsate : bool;
  bindings : list Binding;
  scopes : list Scope;
  ticks : list nat;   (* refs whose navigate call waits for the next tick *)
  minted : nat;       (* listener closures created so far *)
}.

(** [isClient]: [typeof window !== "undefined"]. *)
Definition isClient (st : State) : bool :=
  match window st with Some _ => true | None => false end.

(** Identity of the object in the ref, and the content of every
    [URLSearchParams] object allocated so far. *)
Definition objectId (st : State) : nat := length (detached st).

Definition objects (st : State) : list URLSearchParams.t :=
  detached st ++ [searchParams st].

Definition setWindow (w : Window) (st : State) : State :=
  {| window := Some w; detached := detached st;
     searchParams := searchParams st;
     isListeningPopsate := isListeningPopsate st;
     bindings := bindings st; scopes := scopes st; ticks := ticks st;
     minted := minted st |}.

Definition setListening (b : bool) (st : State) : State :=
  {| window := window st; detached := detached st;
     searchParams := searchParams st; isListeningPopsate := b;
     bindings := bindings st; scopes := scopes st; ticks := ticks st;
     minted := minted st |}.

Definition setBindings (bs : list Binding) (st : State) : State :=
  {| window := window st; detached := detached st;
     searchParams := searchParams st;
     isListeningPopsate := isListeningPopsate st;
     bindings := bs; scopes := scopes st; ticks := ticks st;
     minted := minted st |}.

Definition setScopes (ss : list Scope) (st : State) : State :=
  {| window := window st; detached := detached st;
     searchParams := searchParams st;
     isListeningPopsate := isListeningPopsate st;
     bindings := bindings st; scopes := ss; ticks := ticks st;
     minted := minted st |}.

Definition setTicks (ts : list nat) (st : State) : State :=
  {| window := window st; detached := detached st;
     searchParams := searchParams st;
     isListeningPopsate := isListeningPopsate st;
     bindings := bindings st; scopes := scopes st; ticks := ts;
     minted := minted st |}.

Definition mint (st : State) : State :=
  {| window := window st; detached := detached st;
     searchParams := searchParams st;
     isListeningPopsate := isListeningPopsate st;
     bindings := bindings st; scopes := scopes st; ticks := ticks st;
     minted := S (minted st) |}.

(** A method call on [_internal.searchParams.value]: the object in the ref
    changes, the ref keeps pointing to it. *)
Definition mutate (f : URLSearchParams.t -> URLSearchParams.t)
    (st : State) : State :=
  {| window := window st; detached := detached st;
     searchParams := f (searchParams st);
     isListeningPopsate := isListeningPopsate st;
     bindings := bindings st; scopes := scopes st; ticks := ticks st;
     minted := minted st |}.

(** [_internal.searchParams.value = new URLSearchParams(...)]: a fresh
    object goes into the ref, the old one is left as it was. *)
Definition assignNew (p : URLSearchParams.t) (st : State) : State :=
  {| window := window st; detached := detached st ++ [searchParams st];
     searchParams := p;
     isListeningPopsate := isListeningPopsate st;
     bindings := bindings st; scopes := scopes st; ticks := ticks st;
     minted := minted st |}.

(** [readableValue = r; writableValue = w; _trigger()]. *)
Definition assign {R W V : Type} (c : Closure R W V) (r : V) (w : W)
    : Closure R W V :=
  {| name := name c; serializer := serializer c; navigate := navigate c;
     writableValue := w; readableValue := r;
     watching := watching c; triggered := S (triggered c) |}.

Definition unwatch (b : Binding) : Binding :=
  match b with
  | Scalar c =>
      Scalar {| name := name c; serializer := serializer c;
                navigate := navigate c; writableValue := writableValue c;
                readableValue := readableValue c;
                watching := false; triggered := triggered c |}
  | Array c =>
      Array {| name := name c; serializer := serializer c;
               navigate := navigate c; writableValue := writableValue c;
               readableValue := readableValue c;
               watching := false; triggered := triggered c |}
  end.

(** The callback of [watch(_internal.searchParams, ..., {flush: "sync"})],
    for one binding whose watcher is live. *)
Definition onSearchParams (p : URLSearchParams.t) (b : Binding) : Binding :=
  match b with
  | Scalar c =>
      if negb (watching c) then b
      else
        let newWritableValue := URLSearchParams.get (name c) p in
        if strictEq newWritableValue (writableValue c) then b
        else Scalar (assign c (read (serializer c) newWritableValue)
                       newWritableValue)
  | Array c =>
      if negb (watching c) then b
      else
        let newWritableValue := URLSearchParams.getAll (name c) p in
        if isEqualArrays newWritableValue (writableValue c) then b
        else Array (assign c (map (read (serializer c)) newWritableValue)
                      newWritableValue)
  end.

(** The ref [_internal.searchParams] triggers: every live watcher runs,
    synchronously. *)
Definition triggerRef (st : State) : State :=
  setBindings (map (onSearchParams (searchParams st)) (bindings st)) st.

(** [onScopeDispose(...)] / the watcher registering itself, in the current
    scope when there is one. *)
Definition inScope (scope : option nat) (c : Cleanup) (st : State) : State :=
  match scope with
  | Some s => setScopes (alter (onScopeDispose c) s (scopes st)) st
  | None => st
  end.

Definition addEventListener (l : nat) (w : Window) : Window :=
  {| listeners := listeners w ++ [l]; history := history w |}.

Definition removeEventListener (l : nat) (w : Window) : Window :=
  {| listeners := List.filter (fun l' => negb (Nat.eqb l' l)) (listeners w);
     history := history w |}.

Definition listenPopstate (scope : option nat) (st : State)
    : Outcome State :=
  if negb (isClient st) || isListeningPopsate st then Returned st
  else
    let st := setListening true st in
    let onPopstate := minted st in
    match window st with
    | None => Threw
    | Some w =>
        let st := setWindow (addEventListener onPopstate w) (mint st) in
        Returned (inScope scope (Unlisten onPopstate) st)
    end.

(** [watch(...)] in the body of the two factories: client side only; the
    watcher belongs to the current scope. *)
Definition watch (ref : nat) (scope : option nat) (st : State) : State :=
  if isClient st then inScope scope (StopWatch ref) st else st.

Definition useSearchParam (name : string)
    (serializer : Serializer (option string)) (navigate : Navigate)
    (scope : option nat) (st : State) : Outcome (nat * State) :=
  let writableValue := URLSearchParams.get name (searchParams st) in
  let readableValue := read serializer writableValue in
  let ref := length (bindings st) in
  let c := {| name := name; serializer := serializer; navigate := navigate;
              writableValue := writableValue;
              readableValue := readableValue;
              watching := isClient st; triggered := 0 |} in
  let st := watch ref scope (setBindings (bindings st ++ [Scalar c]) st) in
  bind (listenPopstate scope st) (fun st => Returned (ref, st)).

Definition useSearchParamArray (name : string)
    (serializer : Serializer string) (navigate : Navigate)
    (scope : option nat) (st : State) : Outcome (nat * State) :=
  let writableValue := URLSearchParams.getAll name (searchParams st) in
  let readableValue := map (read serializer) writableValue in
  let ref := length (bindings st) in
  let c := {| name := name; serializer := serializer; navigate := navigate;
              writableValue := writableValue;
              readableValue := readableValue;
              watching := isClient st; triggered := 0 |} in
  let st := watch ref scope (setBindings (bindings st ++ [Array c]) st) in
  bind (listenPopstate scope st) (fun st => Returned (ref, st)).

(** [get()] of the two custom refs ([track()] leaves the state alone). *)
Definition useSearchParam_get (ref : nat) (st : State) : option T :=
  match bindings st !! ref with
  | Some (Scalar c) => Some (readableValue c)
  | _ => None
  end.

Definition useSearchParamArray_get (ref : nat) (st : State)
    : option (list T) :=
  match bindings st !! ref with
  | Some (Array c) => Some (readableValue c)
  | _ => None
  end.

(** [nextTick(() => navigate(...))]. *)
Definition nextTick (ref : nat) (st : State) : State :=
  setTicks (ticks st ++ [ref]) st.

(** [set(newReadableValue)] of the scalar ref. *)
Definition useSearchParam_set (ref : nat) (newReadableValue : T)
    (st : State) : Outcome State :=
  match bindings st !! ref with
  | Some (Scalar c) =>
      let newWritableValue := write (serializer c) newReadableValue in
      if strictEq newWritableValue (writableValue c) then Returned st
      else
        let st :=
          setBindings
            (<[ref := Scalar (assign c newReadableValue newWritableValue)]>
               (bindings st)) st in
        let st :=
          match newWritableValue with
          | Some s => mutate (URLSearchParams.set (name c) s) st
          | None => mutate (URLSearchParams.delete (name c)) st
          end in
        let st := triggerRef st in
        Returned (if isClient st then nextTick ref st else st)
  | _ => Invalid
  end.

(** [delete(name)], then the [for ... of] loop of [append]s. *)
Definition replaceAll (name : string) (values : list string)
    (p : URLSearchParams.t) : URLSearchParams.t :=
  foldl (fun p value => URLSearchParams.append name value p)
    (URLSearchParams.delete name p) values.

(** [set(newReadableValue)] of the array ref. *)
Definition useSearchParamArray_set (ref : nat) (newReadableValue : list T)
    (st : State) : Outcome State :=
  match bindings st !! ref with
  | Some (Array c) =>
      let newWritableValue :=
        map (write (serializer c)) newReadableValue in
      if isEqualArrays newWritableValue (writableValue c) then Returned st
      else
        let st :=
          setBindings
            (<[ref := Array (assign c newReadableValue newWritableValue)]>
               (bindings st)) st in
        let st := mutate (replaceAll (name c) newWritableValue) st in
        let st := triggerRef st in
        Returned (if isClient st then nextTick ref st else st)
  | _ => Invalid
  end.

(** The listener installed by [listenPopstate]. *)
Definition onPopstate (st : State) : Outcome State :=
  match window st with
  | None => Threw
  | Some w => Returned (triggerRef (assignNew (search (history w)) st))
  end.

(** The host traverses the history: the location's query becomes [loc] and
    the window dispatches "popstate" to its listeners. *)
Definition popstate (loc : URLSearchParams.t) (st : State)
    : Outcome State :=
  match window st with
  | None => Invalid
  | Some w =>
      let w' := {| listeners := listeners w;
                   history := {| search := loc;
                                 replaced := replaced (history w) |} |} in
      foldl (fun st _ => bind st onPopstate) (Returned (setWindow w' st))
        (listeners w)
  end.

(** One queued callback: [navigate(toRaw(_internal.searchParams.value))],
    reading the ref when it runs. *)
Definition runTick (st : State) (h : History) (ref : nat) : History :=
  match bindings st !! ref with
  | Some (Scalar c) => navigate c (searchParams st) h
  | Some (Array c) => navigate c (searchParams st) h
  | None => h
  end.

(** The next tick: the queued callbacks run in order. *)
Definition flush (st : State) : Outcome State :=
  match ticks st with
  | [] => Returned st
  | _ =>
      match window st with
      | None => Threw
      | Some w =>
          let h := foldl (runTick st) (history w) (ticks st) in
          Returned
            (setTicks []
               (setWindow {| listeners := listeners w; history := h |} st))
      end
  end.

(** [effectScope()], entered by the caller. *)
Definition effectScope (st : State) : nat * State :=
  (length (scopes st),
   setScopes (scopes st ++ [{| active := true; cleanups := [] |}]) st).

Definition runCleanup (st : Outcome State) (c : Cleanup) : Outcome State :=
  bind st (fun st =>
    match c with
    | Unlisten l =>
        match window st with
        | None => Threw
        | Some w =>
            Returned (setListening false
                        (setWindow (removeEventListener l w) st))
        end
    | StopWatch b => Returned (setBindings (alter unwatch b (bindings st)) st)
    end).

(** [scope.stop()]: the scope's watchers stop and its dispose hooks run;
    stopping a stopped scope does nothing. *)
Definition stop (s : nat) (st : State) : Outcome State :=
  match scopes st !! s with
  | None => Invalid
  | Some sc =>
      if active sc then
        foldl runCleanup
          (Returned
             (setScopes
                (<[s := {| active := false; cleanups := [] |}]> (scopes st))
                st))
          (cleanups sc)
      else Returned st
  end.

(** ** Runs of the module *)

(** Module load: [_internal] is built from the window's location when
    there is a window, from the empty string otherwise. *)
Definition boot (location : option URLSearchParams.t) : State :=
  {| window :=
       (fun loc => {| listeners := [];
                      history := {| search := loc; replaced := [] |} |})
         <$> location;
     detached := [];
     searchParams := default [] location;
     isListeningPopsate := false;
     bindings := []; scopes := []; ticks := []; minted := 0 |}.

(** [getCurrentScope()] can only return a scope that is running. *)
Definition running (scope : option nat) (st : State) : bool :=
  match scope with
  | None => true
  | Some s =>
      match scopes st !! s with
      | Some sc => active sc
      | None => false
      end
  end.

Inductive Event : Type :=
| NewScope
| Use (name : string) (serializer : Serializer (option string))
    (navigate : Navigate) (scope : option nat)
| UseArray (name : string) (serializer : Serializer string)
    (navigate : Navigate) (scope : option nat)
| Set_ (ref : nat) (value : T)
| SetArray (ref : nat) (value : list T)
| Popstate (loc : URLSearchParams.t)
| Flush
| Stop (s : nat).

Definition exec (e : Event) (st : State) : Outcome State :=
  match e with
  | NewScope => Returned (snd (effectScope st))
  | Use n ser nav scope =>
      if running scope st
      then bind (useSearchParam n ser nav scope st)
             (fun r => Returned (snd r))
      else Invalid
  | UseArray n ser nav scope =>
      if running scope st
      then bind (useSearchParamArray n ser nav scope st)
             (fun r => Returned (snd r))
      else Invalid
  | Set_ ref v => useSearchParam_set ref v st
  | SetArray ref v => useSearchParamArray_set ref v st
  | Popstate loc => popstate loc st
  | Flush => flush st
  | Stop s => stop s st
  end.

Definition run (es : list Event) (st : State) : Outcome State :=
  foldl (fun st e => bind st (exec e)) (Returned st) es.

(** The states the module can be in: after module load, any events. *)
Inductive reachable : State -> Prop :=
| reachable_boot location : reachable (boot location)
| reachable_exec st e st' :
    reachable st -> exec e st = Returned st' -> reachable st'.

(** ** Vocabulary of the statements *)

Definition liveListeners (st : State) : list nat :=
  match window st with
  | Some w => listeners w
  | None => []
  end.

(** Scope [s] is running and holds the hook that tears the listener down. *)
Definition holdsTeardown (s : nat) (st : State) : bool :=
  match scopes st !! s with
  | Some sc =>
      active sc && negb (Nat.eqb (length (unlistens (cleanups sc))) 0)
  | None => false
  end.

(** Scope [s] is running and owns the watcher of binding [ref]. *)
Definition owns (s ref : nat) (st : State) : bool :=
  match scopes st !! s with
  | Some sc =>
      active sc && existsb (Nat.eqb ref) (watchers (cleanups sc))
  | None => false
  end.

(** The raw cache of a binding agrees with the search params [p]. *)
Definition coherent (p : URLSearchParams.t) (b : Binding) : Prop :=
  match b with
  | Scalar c => URLSearchParams.get (name c) p = writableValue c
  | Array c => URLSearchParams.getAll (name c) p = writableValue c
  end.

(** The test the two callbacks make before they return early. *)
Definition sameRaw (p : URLSearchParams.t) (b : Binding) : bool :=
  match b with
  | Scalar c => strictEq (URLSearchParams.get (name c) p) (writableValue c)
  | Array c =>
      isEqualArrays (URLSearchParams.getAll (name c) p) (writableValue c)
  end.

(** The binding's watcher on the shared ref is live. *)
Definition isWatching (b : Binding) : bool :=
  match b with
  | Scalar c => watching c
  | Array c => watching c
  end.

(** Every binding whose watcher is live caches the values the shared search
    params hold for its name. *)
Definition inStep (p : URLSearchParams.t) (bs : list Binding) : Prop :=
  forall i b, bs !! i = Some b -> isWatching b = true -> sameRaw p b = true.

Definition nameOf (b : Binding) : string :=
  match b with
  | Scalar c => name c
  | Array c => name c
  end.

(** What the module keeps true between events. *)
Definition wellFormed (st : State) : Prop :=
  match window st with
  | None =>
      isListeningPopsate st = false /\ ticks st = [] /\
      hooksOf (scopes st) = []
  | Some w =>
      if isListeningPopsate st
      then exists l, listeners w = [l] /\
                     (hooksOf (scopes st) = [] \/ hooksOf (scopes st) = [l])
      else listeners w = [] /\ hooksOf (scopes st) = []
  end.

(** The [navigate] function and the notification count of a binding. *)
Definition navigateOf (b : Binding) : Navigate :=
  match b with
  | Scalar c => navigate c
  | Array c => navigate c
  end.

Definition triggeredOf (b : Binding) : nat :=
  match b with
  | Scalar c => triggered c
  | Array c => triggered c
  end.

(** Two records of one ref: same kind, name, serializer and navigate; the
    caches, the watcher and the notification count may differ. *)
Definition sameRef (b b' : Binding) : Prop :=
  match b, b' with
  | Scalar c, Scalar c' =>
      name c = name c' /\ serializer c = serializer c' /\
      navigate c = navigate c'
  | Array c, Array c' =>
      name c = name c' /\ serializer c = serializer c' /\
      navigate c = navigate c'
  | _, _ => False
  end.

(** The watchers the cleanups [cs] stop, applied to the bindings. *)
Definition stopWatchers (cs : list Cleanup) (bs : list Binding)
    : list Binding :=
  foldl (fun bs r => alter unwatch r bs) bs (watchers cs).

(** The list [bs'] holds, index by index, records of the refs of [bs], and
    none of them with a watcher that [bs] did not have. *)
Definition keepsRefs (bs bs' : list Binding) : Prop :=
  length bs' = length bs /\
  forall i b, bs !! i = Some b ->
    exists b', bs' !! i = Some b' /\ sameRef b b' /\
               (isWatching b' = true -> isWatching b = true).

(** Whether scope [s] is running, and the refs whose watcher it will stop
    when it is disposed. *)
Definition activeAt (s : nat) (st : State) : bool :=
  match scopes st !! s with
  | Some sc => active sc
  | None => false
  end.

Definition watchersAt (s : nat) (st : State) : list nat :=
  match scopes st !! s with
  | Some sc => watchers (cleanups sc)
  | None => []
  end.

(** The scope a factory call is made in ([None]: outside any scope), for
    the two events that are factory calls. *)
Definition createdIn (e : Event) : option (option nat) :=
  match e with
  | Use _ _ _ scope => Some scope
  | UseArray _ _ _ scope => Some scope
  | _ => None
  end.

End Bindings.

(** ** Serializers and runs used as examples *)

(** The default serializer of [useSearchParam]: the identity on
    [string | null]. *)
Definition identity : Serializer (T := option string) (option string) :=
  {| read := fun value => value; write := fun value => value |}.

(** The default serializer of [useSearchParamArray]. *)
Definition identityItem : Serializer (T := string) string :=
  {| read := fun value => value; write := fun value => value |}.

(** A serializer that keeps only the parity of a number. *)
Definition parity : Serializer (T := nat) (option string) :=
  {| read := fun value =>
               match value with
               | Some s => if String.eqb s "odd" then 1 else 0
               | None => 0
               end;
     write := fun n => Some (if Nat.even n then "even" else "odd") |}.

Definition parityItem : Serializer (T := nat) string :=
  {| read := fun s => if String.eqb s "odd" then 1 else 0;
     write := fun n => if Nat.even n then "even" else "odd" |}.

(** Several calls of [listenPopstate], one per binding that asks. *)
Definition listenMany {T : Type} (calls : list (option nat))
    (st : State (T := T)) : Outcome State :=
  foldl (fun o scope => bind o (listenPopstate scope)) (Returned st) calls.

(** The state a run ends in ([boot None] when it does not return). *)
Definition settled {T : Type} (o : Outcome (State (T := T))) : State :=
  match o with
  | Returned st => st
  | _ => boot None
  end.

(** A page with one scalar ref, [useSearchParam("foo")]. *)
Definition pageFoo : State (T := option string) :=
  settled (run [Use "foo" identity defaultNavigate None] (boot (Some []))).

(** A page with [useSearchParam("n", {serializer: parity})] and
    [useSearchParamArray("ns", {serializer: parityItem})]. *)
Definition pageParity : State (T := nat) :=
  settled (run [Use "n" parity defaultNavigate None;
                UseArray "ns" parityItem defaultNavigate None]
             (boot (Some []))).

(** A page with a scalar ref on "q" and an array ref on "tag", both
    written once. *)
Definition pageTags : State (T := string) :=
  settled (run [Use "q" {| read := default ""; write := Some |}
                  defaultNavigate None;
                UseArray "tag" identityItem defaultNavigate None;
                Set_ 0 "rocq";
                SetArray 1 ["a"; "b"]]
             (boot (Some [("tag", "z"); ("page", "2"); ("tag", "y")]))).

(** A component mounted in its own scope, with one ref. *)
Definition pageMounted : State (T := option string) :=
  settled (run [NewScope; Use "a" identity defaultNavigate (Some 0)]
             (boot (Some []))).

(** Server rendering: no window, one ref on "foo". *)
Definition pageServer : State (T := option string) :=
  settled (run [Use "foo" identity defaultNavigate None] (boot None)).

(** Two components, each in its own scope, each with one ref; the first
    component is unmounted. *)
Definition twoScopes : list (Event (T := option string)) :=
  [NewScope; NewScope;
   Use "a" identity defaultNavigate (Some 0);
   Use "b" identity defaultNavigate (Some 1);
   Stop 0].

(** A serializer for plain text: [null] reads as the empty string. *)
Definition text : Serializer (T := string) (option string) :=
  {| read := default ""; write := Some |}.

(** Two scalar refs on "q" and two array refs on "tag", on the client. *)
Definition pageTwins : State (T := string) :=
  settled (run [Use "q" text defaultNavigate None;
                Use "q" text defaultNavigate None;
                UseArray "tag" identityItem defaultNavigate None;
                UseArray "tag" identityItem defaultNavigate None]
             (boot (Some [("tag", "z")]))).

(** The mounted component after its scope has been stopped. *)
Definition pageUnmounted : State (T := option string) :=
  settled (run [NewScope; Use "a" identity defaultNavigate (Some 0); Stop 0]
             (boot (Some []))).

(** Server rendering with two refs on "foo". *)
Definition pageServerTwins : State (T := option string) :=
  settled (run [Use "foo" identity defaultNavigate None;
                Use "foo" identity defaultNavigate None] (boot None)).


(** * Facts *)

(** ** [URLSearchParams] *)

Section SearchParamsFacts.

Import URLSearchParams.

Lemma usp_get_head n p : get n p = head (getAll n p).
Proof.
  induction p as [|[k v] p IH]; simpl; [done|].
  destruct (String.eqb k n); done.
Qed.

Lemma usp_has_get n p : has n p = bool_decide (is_Some (get n p)).
Proof.
  induction p as [|[k v] p IH]; simpl; [done|].
  destruct (String.eqb k n); simpl; done.
Qed.

Lemma usp_getAll_delete_eq n p : getAll n (delete n p) = [].
Proof.
  induction p as [|[k v] p IH]; simpl; [done|].
  destruct (String.eqb k n) eqn:E; simpl; [done|]. by rewrite E.
Qed.

Lemma usp_getAll_delete_ne n m p : n <> m -> getAll m (delete n p) = getAll m p.
Proof.
  intros Hne. induction p as [|[k v] p IH]; simpl; [done|].
  destruct (String.eqb k n) eqn:E; simpl.
  - apply String.eqb_eq in E as ->.
    apply String.eqb_neq in Hne as ->. done.
  - by rewrite IH.
Qed.

Lemma usp_has_delete_eq n p : has n (delete n p) = false.
Proof.
  rewrite usp_has_get, usp_get_head, usp_getAll_delete_eq. done.
Qed.

Lemma usp_getAll_append n m v p :
  getAll m (append n v p) = getAll m p ++ (if String.eqb n m then [v] else []).
Proof.
  unfold append. induction p as [|[k w] p IH]; simpl; [done|].
  destruct (String.eqb k m); simpl; by rewrite IH.
Qed.

Lemma usp_getAll_set_eq n v p : getAll n (set n v p) = [v].
Proof.
  induction p as [|[k w] p IH]; simpl.
  - by rewrite String.eqb_refl.
  - destruct (String.eqb k n) eqn:E; simpl; rewrite E; [|done].
    by rewrite usp_getAll_delete_eq.
Qed.

Lemma usp_getAll_set_ne n m v p : n <> m -> getAll m (set n v p) = getAll m p.
Proof.
  intros Hne. induction p as [|[k w] p IH]; simpl.
  - apply String.eqb_neq in Hne as ->. done.
  - destruct (String.eqb k n) eqn:E; simpl.
    + apply String.eqb_eq in E as ->.
      pose proof Hne as Hne'. apply String.eqb_neq in Hne' as ->.
      by apply usp_getAll_delete_ne.
    + by rewrite IH.
Qed.

Lemma usp_get_set_eq n v p : get n (set n v p) = Some v.
Proof. by rewrite usp_get_head, usp_getAll_set_eq. Qed.

Lemma usp_get_delete_eq n p : get n (delete n p) = None.
Proof. by rewrite usp_get_head, usp_getAll_delete_eq. Qed.

End SearchParamsFacts.

(** ** Strict equality *)

Lemma strictEq_true a b : strictEq a b = true <-> a = b.
Proof.
  destruct a as [x|], b as [y|]; simpl; try (split; congruence).
  rewrite String.eqb_eq. split; congruence.
Qed.

Lemma strictEq_false a b : strictEq a b = false <-> a <> b.
Proof.
  rewrite <- strictEq_true. destruct (strictEq a b); split; congruence.
Qed.

Lemma isEqualArrays_true a b : isEqualArrays a b = true <-> a = b.
Proof.
  unfold isEqualArrays. split.
  - destruct (Nat.eqb (length a) (length b)) eqn:E; simpl; [|done].
    apply Nat.eqb_eq in E. rewrite forallb_forall. intros H.
    apply list_eq. intros i.
    destruct (decide (i < length a)) as [Hlt|Hge].
    + apply strictEq_true, H, in_seq. lia.
    + rewrite !lookup_ge_None_2; [done|lia..].
  - intros <-. rewrite Nat.eqb_refl. simpl.
    apply forallb_forall. intros i _. by apply strictEq_true.
Qed.

Lemma isEqualArrays_false a b : isEqualArrays a b = false <-> a <> b.
Proof.
  rewrite <- isEqualArrays_true. destruct (isEqualArrays a b); split; congruence.
Qed.

Lemma usp_getAll_appends n m vs p :
  URLSearchParams.getAll m
    (foldl (fun p value => URLSearchParams.append n value p) p vs)
  = URLSearchParams.getAll m p ++ (if String.eqb n m then vs else []).
Proof.
  revert p. induction vs as [|v vs IH]; intros p; simpl.
  - destruct (String.eqb n m); by rewrite app_nil_r.
  - rewrite IH, usp_getAll_append.
    destruct (String.eqb n m); by rewrite <- app_assoc.
Qed.

Lemma usp_getAll_replaceAll_eq n vs p :
  URLSearchParams.getAll n (replaceAll n vs p) = vs.
Proof.
  unfold replaceAll.
  by rewrite usp_getAll_appends, usp_getAll_delete_eq, String.eqb_refl.
Qed.

Lemma usp_getAll_replaceAll_ne n m vs p :
  n <> m ->
  URLSearchParams.getAll m (replaceAll n vs p) = URLSearchParams.getAll m p.
Proof.
  intros Hne. unfold replaceAll.
  rewrite usp_getAll_appends, usp_getAll_delete_ne by done.
  apply String.eqb_neq in Hne as ->. by rewrite app_nil_r.
Qed.

(** ** The watcher callback *)

Section WatcherFacts.

Context {T : Type}.
Implicit Types (b : Binding (T := T)) (st : State (T := T)).

Lemma sameRaw_coherent p b : sameRaw p b = true <-> coherent p b.
Proof.
  destruct b as [c|c]; simpl.
  - apply strictEq_true.
  - apply isEqualArrays_true.
Qed.

Lemma onSearchParams_same p b : sameRaw p b = true -> onSearchParams p b = b.
Proof.
  destruct b as [c|c]; simpl; intros ->; by destruct (watching c).
Qed.

Lemma onSearchParams_name p b : nameOf (onSearchParams p b) = nameOf b.
Proof.
  destruct b as [c|c]; simpl; destruct (watching c); simpl; try done.
  - by destruct (strictEq _ _).
  - by destruct (isEqualArrays _ _).
Qed.

(** Values of one name are all a binding looks at. *)
Lemma sameRaw_ext p q b :
  URLSearchParams.getAll (nameOf b) p = URLSearchParams.getAll (nameOf b) q ->
  sameRaw p b = sameRaw q b.
Proof.
  destruct b as [c|c]; simpl; intros E.
  - by rewrite !usp_get_head, E.
  - by rewrite E.
Qed.

Lemma triggerRef_lookup st i :
  bindings (triggerRef st) !! i
  = onSearchParams (searchParams st) <$> bindings st !! i.
Proof. unfold triggerRef. simpl. apply list_lookup_fmap. Qed.

End WatcherFacts.

(** ** Writes through a ref *)

Section WriteFacts.

Context {T : Type}.
Implicit Types (b : Binding (T := T)) (st : State (T := T)).

(** The state a scalar write that passes the guard leaves behind. *)
Lemma useSearchParam_set_changed st ref c v :
  bindings st !! ref = Some (Scalar c) ->
  strictEq (write (serializer c) v) (writableValue c) = false ->
  exists st',
    useSearchParam_set ref v st = Returned st' /\
    searchParams st' =
      match write (serializer c) v with
      | Some s => URLSearchParams.set (name c) s (searchParams st)
      | None => URLSearchParams.delete (name c) (searchParams st)
      end /\
    bindings st' =
      map (onSearchParams (searchParams st'))
        (<[ref := Scalar (assign c v (write (serializer c) v))]> (bindings st)) /\
    ticks st' = (if isClient st then ticks st ++ [ref] else ticks st) /\
    window st' = window st /\ detached st' = detached st /\
    isListeningPopsate st' = isListeningPopsate st /\
    scopes st' = scopes st /\ minted st' = minted st.
Proof.
  intros Hb Hne. unfold useSearchParam_set. rewrite Hb, Hne.
  eexists. split; [reflexivity|].
  unfold isClient.
  destruct (write (serializer c) v); simpl; destruct (window st) eqn:W;
    simpl; rewrite ?W; repeat split.
Qed.

(** The same for an array write. *)
Lemma useSearchParamArray_set_changed st ref c vs :
  bindings st !! ref = Some (Array c) ->
  isEqualArrays (map (write (serializer c)) vs) (writableValue c) = false ->
  exists st',
    useSearchParamArray_set ref vs st = Returned st' /\
    searchParams st' =
      replaceAll (name c) (map (write (serializer c)) vs) (searchParams st) /\
    bindings st' =
      map (onSearchParams (searchParams st'))
        (<[ref := Array (assign c vs (map (write (serializer c)) vs))]>
           (bindings st)) /\
    ticks st' = (if isClient st then ticks st ++ [ref] else ticks st) /\
    window st' = window st /\ detached st' = detached st /\
    isListeningPopsate st' = isListeningPopsate st /\
    scopes st' = scopes st /\ minted st' = minted st.
Proof.
  intros Hb Hne. unfold useSearchParamArray_set. rewrite Hb, Hne.
  eexists. split; [reflexivity|].
  unfold isClient. simpl; destruct (window st) eqn:W; simpl; rewrite ?W;
    repeat split.
Qed.

(** A write through a valid ref always returns. *)
Lemma useSearchParam_set_returns st ref c v :
  bindings st !! ref = Some (Scalar c) ->
  exists st', useSearchParam_set ref v st = Returned st'.
Proof.
  intros Hb.
  destruct (strictEq (write (serializer c) v) (writableValue c)) eqn:E.
  - exists st. unfold useSearchParam_set. by rewrite Hb, E.
  - destruct (useSearchParam_set_changed st ref c v Hb E) as (st' & H & _).
    eauto.
Qed.

Lemma useSearchParamArray_set_returns st ref c vs :
  bindings st !! ref = Some (Array c) ->
  exists st', useSearchParamArray_set ref vs st = Returned st'.
Proof.
  intros Hb.
  destruct (isEqualArrays (map (write (serializer c)) vs) (writableValue c))
    eqn:E.
  - exists st. unfold useSearchParamArray_set. by rewrite Hb, E.
  - destruct (useSearchParamArray_set_changed st ref c vs Hb E)
      as (st' & H & _).
    eauto.
Qed.

(** After its own write, a binding's watcher finds nothing new. *)
Lemma onSearchParams_own_scalar (c : Closure (option string) (option string) T)
    v p :
  let w := write (serializer c) v in
  onSearchParams
    (match w with
     | Some s => URLSearchParams.set (name c) s p
     | None => URLSearchParams.delete (name c) p
     end)
    (Scalar (assign c v w))
  = Scalar (assign c v w).
Proof.
  intros w. apply onSearchParams_same. simpl. apply strictEq_true.
  destruct w; [apply usp_get_set_eq | apply usp_get_delete_eq].
Qed.

Lemma onSearchParams_own_array (c : Closure string (list string) (list T))
    vs p :
  let w := map (write (serializer c)) vs in
  onSearchParams (replaceAll (name c) w p) (Array (assign c vs w))
  = Array (assign c vs w).
Proof.
  intros w. apply onSearchParams_same. simpl. apply isEqualArrays_true.
  apply usp_getAll_replaceAll_eq.
Qed.

End WriteFacts.

(** ** Scopes and their hooks *)

Lemma unlistens_app cs cs' : unlistens (cs ++ cs') = unlistens cs ++ unlistens cs'.
Proof. apply flat_map_app. Qed.

Lemma hooksOf_app ss ss' : hooksOf (ss ++ ss') = hooksOf ss ++ hooksOf ss'.
Proof. apply flat_map_app. Qed.

Lemma hooksOf_watch r s ss :
  hooksOf (alter (onScopeDispose (StopWatch r)) s ss) = hooksOf ss.
Proof.
  revert s. induction ss as [|sc ss IH]; intros [|s]; simpl; try done.
  - rewrite unlistens_app. simpl. by rewrite app_nil_r.
  - f_equal. apply IH.
Qed.

Lemma hooksOf_hook l s ss :
  hooksOf ss = [] ->
  hooksOf (alter (onScopeDispose (Unlisten l)) s ss) = [] \/
  hooksOf (alter (onScopeDispose (Unlisten l)) s ss) = [l].
Proof.
  revert s. induction ss as [|sc ss IH]; intros s H; [by left|].
  simpl in H. apply app_eq_nil in H as [H1 H2].
  destruct s as [|s]; simpl.
  - rewrite H2, app_nil_r. destruct (active sc); [|by left].
    rewrite unlistens_app, H1. by right.
  - rewrite H1. simpl. by apply IH.
Qed.

(** Marking a running scope as stopped takes exactly its hooks away. *)
Lemma hooksOf_stopped s sc ss :
  ss !! s = Some sc -> active sc = true ->
  exists pre post,
    hooksOf ss = pre ++ unlistens (cleanups sc) ++ post /\
    hooksOf (<[s := {| active := false; cleanups := [] |}]> ss) = pre ++ post.
Proof.
  revert s. induction ss as [|sc' ss IH]; intros [|s] Hs Ha; simpl in *;
    try done.
  - injection Hs as ->. rewrite Ha. by exists [], (hooksOf ss).
  - destruct (IH s Hs Ha) as (pre & post & -> & ->).
    exists ((if active sc' then unlistens (cleanups sc') else []) ++ pre), post.
    by rewrite <- !app_assoc.
Qed.

Section Invariant.

Context {T : Type}.
Implicit Types (b : Binding (T := T)) (st : State (T := T)).

(** [wellFormed] only looks at the listeners, the flag, the hooks and, where
    there is no window, the tick queue. *)
Lemma wellFormed_frame st st' :
  isClient st' = isClient st ->
  liveListeners st' = liveListeners st ->
  isListeningPopsate st' = isListeningPopsate st ->
  hooksOf (scopes st') = hooksOf (scopes st) ->
  (isClient st = false -> ticks st' = ticks st) ->
  wellFormed st -> wellFormed st'.
Proof.
  unfold wellFormed, isClient, liveListeners. intros Hc Hls -> -> Ht.
  destruct (window st), (window st'); try done.
  - by rewrite Hls.
  - by rewrite Ht.
Qed.

Lemma wellFormed_boot location : wellFormed (boot (T := T) location).
Proof. destruct location; simpl; unfold wellFormed; simpl; auto. Qed.

Lemma listenPopstate_returns scope st :
  exists st',
    listenPopstate scope st = Returned st' /\
    bindings st' = bindings st /\ searchParams st' = searchParams st /\
    detached st' = detached st /\ ticks st' = ticks st /\
    isClient st' = isClient st /\
    (window st = None -> st' = st) /\
    (isListeningPopsate st = true -> st' = st) /\
    (isClient st = true -> isListeningPopsate st' = true).
Proof.
  unfold listenPopstate, isClient.
  destruct (window st) as [w|] eqn:W; simpl.
  - destruct (isListeningPopsate st) eqn:L; simpl.
    + exists st. rewrite W. by repeat split.
    + rewrite W. eexists. split; [reflexivity|].
      destruct scope; simpl; by repeat split.
  - exists st. rewrite W. by repeat split.
Qed.

Lemma listenPopstate_wellFormed scope st st' :
  wellFormed st -> listenPopstate scope st = Returned st' -> wellFormed st'.
Proof.
  unfold listenPopstate, isClient, wellFormed.
  destruct (window st) as [w|] eqn:W; simpl.
  - destruct (isListeningPopsate st) eqn:L; simpl.
    + intros H [= <-]. by rewrite W, L.
    + rewrite W. intros [Hl Hh] [= <-].
      destruct scope as [s|]; simpl; rewrite Hl; simpl.
      * exists (minted st). split; [done|]. by apply hooksOf_hook.
      * exists (minted st). split; [done|]. by left.
  - intros H [= <-]. by rewrite W.
Qed.

Lemma watch_wellFormed ref scope st : wellFormed st -> wellFormed (watch ref scope st).
Proof.
  unfold watch. destruct (isClient st); [|done].
  destruct scope as [s|]; simpl; [|done].
  apply wellFormed_frame; simpl; try done. apply hooksOf_watch.
Qed.

Lemma watch_frame ref scope st :
  window (watch ref scope st) = window st /\
  isListeningPopsate (watch ref scope st) = isListeningPopsate st /\
  bindings (watch ref scope st) = bindings st /\
  searchParams (watch ref scope st) = searchParams st /\
  detached (watch ref scope st) = detached st /\
  ticks (watch ref scope st) = ticks st.
Proof. unfold watch. destruct (isClient st), scope; by simpl. Qed.

Lemma isClient_window st : isClient st = false <-> window st = None.
Proof. unfold isClient. destruct (window st); split; congruence. Qed.

(** The listeners of a dispatch run one after the other; none of them
    touches the window, the flag, the scopes or the queue, and each puts a
    fresh object into the ref. *)
Lemma dispatch_returns (ls : list nat) st w :
  window st = Some w ->
  exists st',
    foldl (fun o _ => bind o onPopstate) (Returned st) ls = Returned st' /\
    window st' = window st /\
    isListeningPopsate st' = isListeningPopsate st /\
    scopes st' = scopes st /\ ticks st' = ticks st /\
    minted st' = minted st /\
    objectId st' = objectId st + length ls /\
    (ls <> [] -> searchParams st' = search (history w)) /\
    (forall i, i <= objectId st -> objects st' !! i = objects st !! i).
Proof.
  revert st. induction ls as [|l ls IH]; intros st W; simpl.
  - exists st. repeat split; try done; lia.
  - unfold onPopstate at 2. rewrite W.
    destruct (IH (triggerRef (assignNew (search (history w)) st)) W)
      as (st' & -> & Hw & Hl & Hs & Ht & Hm & Hid & Hcur & Hold).
    exists st'. repeat split; try done.
    + by rewrite Hw.
    + rewrite Hid. unfold objectId. simpl. rewrite length_app. simpl. lia.
    + intros _. destruct ls as [|l' ls]; [|by apply Hcur].
      simpl in Hid. rewrite Nat.add_0_r in Hid.
      pose proof (Hold (objectId st')) as Hlast.
      rewrite Hid in Hlast at 1. specialize (Hlast (le_n _)).
      rewrite Hid in Hlast. unfold objects, objectId in Hlast.
      rewrite !list_lookup_middle in Hlast by done. by injection Hlast.
    + intros i Hi. rewrite Hold.
      * unfold objects. simpl. rewrite <- app_assoc. simpl.
        unfold objectId in Hi.
        destruct (decide (i = length (detached st))) as [->|Hne].
        -- by rewrite !list_lookup_middle.
        -- rewrite !lookup_app_l; [done|lia..].
      * unfold objectId in *. simpl. rewrite length_app. simpl. lia.
Qed.

(** The cleanups of a scope: they return as long as a window is there for
    the hooks that need one. *)
Lemma cleanups_return cs st :
  (unlistens cs <> [] -> window st <> None) ->
  exists st',
    foldl runCleanup (Returned st) cs = Returned st' /\
    scopes st' = scopes st /\ ticks st' = ticks st /\
    searchParams st' = searchParams st /\ detached st' = detached st /\
    minted st' = minted st /\
    window st' =
      (fun w => foldl (fun w l => removeEventListener l w) w (unlistens cs))
        <$> window st /\
    isListeningPopsate st' =
      match unlistens cs with
      | [] => isListeningPopsate st
      | _ => false
      end.
Proof.
  revert st. induction cs as [|[l|r] cs IH]; intros st Hw; simpl.
  - exists st. repeat split; try done. by destruct (window st).
  - destruct (window st) as [w|] eqn:W; [|by destruct Hw].
    destruct (IH (setListening false (setWindow (removeEventListener l w) st)))
      as (st' & -> & Hs & Ht & Hp & Hd & Hm & Hwin & Hl); [done|].
    exists st'. repeat split; try done.
    simpl in Hl. rewrite Hl. by destruct (unlistens cs).
  - destruct (IH (setBindings (alter unwatch r (bindings st)) st))
      as (st' & -> & Hs & Ht & Hp & Hd & Hm & Hwin & Hl); [done|].
    by exists st'.
Qed.

Lemma holdsTeardown_spec s st sc :
  scopes st !! s = Some sc -> active sc = true ->
  holdsTeardown s st = match unlistens (cleanups sc) with [] => false | _ => true end.
Proof.
  intros Hs Ha. unfold holdsTeardown. rewrite Hs, Ha.
  by destruct (unlistens (cleanups sc)).
Qed.

(** Stopping a scope: the listener goes exactly when the scope holds the
    hook. *)
Lemma stop_effect st s sc :
  wellFormed st -> scopes st !! s = Some sc ->
  exists st',
    stop s st = Returned st' /\ wellFormed st' /\
    ticks st' = ticks st /\ searchParams st' = searchParams st /\
    detached st' = detached st /\ isClient st' = isClient st /\
    (holdsTeardown s st = true ->
       isListeningPopsate st = true /\
       isListeningPopsate st' = false /\ liveListeners st' = []) /\
    (holdsTeardown s st = false ->
       isListeningPopsate st' = isListeningPopsate st /\
       window st' = window st).
Proof.
  intros Hwf Hs. unfold stop. rewrite Hs.
  destruct (active sc) eqn:Ha.
  2:{ exists st.
      assert (holdsTeardown s st = false) as ->
        by (unfold holdsTeardown; by rewrite Hs, Ha).
      by repeat split. }
  rewrite (holdsTeardown_spec s st sc Hs Ha).
  destruct (hooksOf_stopped s sc (scopes st) Hs Ha) as (pre & post & Hh & Hh').
  set (st0 := setScopes _ st).
  assert (Hw0 : unlistens (cleanups sc) <> [] -> window st0 <> None).
  { intros Hu W. simpl in W. unfold wellFormed in Hwf. rewrite W in Hwf.
    destruct Hwf as (_ & _ & Hnil). rewrite Hh in Hnil.
    apply app_eq_nil in Hnil as [_ Hnil]. by apply app_eq_nil in Hnil as [? _]. }
  destruct (cleanups_return (cleanups sc) st0 Hw0)
    as (st' & -> & Hsc & Ht & Hp & Hd & Hm & Hwin & Hl).
  exists st'. simpl in *. unfold wellFormed, liveListeners, isClient in *.
  rewrite Hwin, Hl, Hsc, Ht. simpl. rewrite Hh'. rewrite Hh in Hwf.
  destruct (unlistens (cleanups sc)) as [|u us] eqn:U; simpl in *.
  - destruct (window st) as [w|]; simpl; repeat split; try done; apply Hwf.
  - destruct (window st) as [w|]; simpl.
    + destruct (isListeningPopsate st).
      * destruct Hwf as (l & Hls & [Hnil|Hone]).
        { by destruct pre. }
        assert (pre = [] /\ u = l /\ us = [] /\ post = []) as (-> & -> & -> & ->).
        { destruct pre as [|x pre]; simpl in Hone.
          - injection Hone as -> Hrest.
            by apply app_eq_nil in Hrest as [-> ->].
          - injection Hone as _ Hrest. by destruct pre. }
        simpl. rewrite Hls. simpl. rewrite Nat.eqb_refl. simpl.
        by repeat split.
      * destruct Hwf as [_ Hnil]. by destruct pre.
    + destruct Hwf as (_ & _ & Hnil). by destruct pre.
Qed.

(** One event: the module stays well formed, a window neither appears nor
    goes, and a listening module stops listening only through the scope
    that holds the hook. *)
Lemma exec_effect st e st' :
  wellFormed st -> exec e st = Returned st' ->
  wellFormed st' /\ isClient st' = isClient st /\
  (isListeningPopsate st = true ->
     isListeningPopsate st' = true \/
     exists s, e = Stop s /\ holdsTeardown s st = true).
Proof.
  intros Hwf. destruct e as [|n ser nav sc|n ser nav sc|ref v|ref v|loc| |s];
    simpl.
  - intros [= <-]. split; [|by auto].
    revert Hwf. apply wellFormed_frame; simpl; try done.
    rewrite hooksOf_app. simpl. by rewrite app_nil_r.
  - destruct (running sc st); [|done]. unfold useSearchParam.
    match goal with |- context [listenPopstate sc ?x] => set (st1 := x) end.
    assert (wellFormed st1) as Hwf1.
    { apply watch_wellFormed. revert Hwf. by apply wellFormed_frame. }
    destruct (listenPopstate_returns sc st1)
      as (st2 & E & _ & _ & _ & _ & Hc & _ & Hon & _).
    rewrite E. simpl. intros [= <-].
    split; [by eapply listenPopstate_wellFormed|]. split.
    + rewrite Hc. unfold isClient, st1.
      by rewrite (proj1 (watch_frame _ _ _)).
    + intros L. left. rewrite Hon; unfold st1;
        by rewrite (proj1 (proj2 (watch_frame _ _ _))).
  - destruct (running sc st); [|done]. unfold useSearchParamArray.
    match goal with |- context [listenPopstate sc ?x] => set (st1 := x) end.
    assert (wellFormed st1) as Hwf1.
    { apply watch_wellFormed. revert Hwf. by apply wellFormed_frame. }
    destruct (listenPopstate_returns sc st1)
      as (st2 & E & _ & _ & _ & _ & Hc & _ & Hon & _).
    rewrite E. simpl. intros [= <-].
    split; [by eapply listenPopstate_wellFormed|]. split.
    + rewrite Hc. unfold isClient, st1.
      by rewrite (proj1 (watch_frame _ _ _)).
    + intros L. left. rewrite Hon; unfold st1;
        by rewrite (proj1 (proj2 (watch_frame _ _ _))).
  - destruct (bindings st !! ref) as [[c|c]|] eqn:Hb;
      try (unfold useSearchParam_set; by rewrite Hb).
    destruct (strictEq (write (serializer c) v) (writableValue c)) eqn:E.
    { unfold useSearchParam_set. rewrite Hb, E. intros [= <-]. auto. }
    destruct (useSearchParam_set_changed st ref c v Hb E)
      as (st2 & -> & _ & _ & Ht & Hw & _ & Hl & Hs & _).
    intros [= <-]. split; [|split].
    + revert Hwf. apply wellFormed_frame;
        unfold isClient, liveListeners; rewrite ?Hw, ?Hs; try done.
      rewrite Ht. unfold isClient. by destruct (window st).
    + unfold isClient. by rewrite Hw.
    + intros L. left. by rewrite Hl.
  - destruct (bindings st !! ref) as [[c|c]|] eqn:Hb;
      try (unfold useSearchParamArray_set; by rewrite Hb).
    destruct (isEqualArrays (map (write (serializer c)) v) (writableValue c))
      eqn:E.
    { unfold useSearchParamArray_set. rewrite Hb, E. intros [= <-]. auto. }
    destruct (useSearchParamArray_set_changed st ref c v Hb E)
      as (st2 & -> & _ & _ & Ht & Hw & _ & Hl & Hs & _).
    intros [= <-]. split; [|split].
    + revert Hwf. apply wellFormed_frame;
        unfold isClient, liveListeners; rewrite ?Hw, ?Hs; try done.
      rewrite Ht. unfold isClient. by destruct (window st).
    + unfold isClient. by rewrite Hw.
    + intros L. left. by rewrite Hl.
  - unfold popstate. destruct (window st) as [w|] eqn:W; [|done].
    match goal with |- context [Returned ?x] => set (st1 := x) end.
    destruct (dispatch_returns (listeners w) st1 _ eq_refl)
      as (st2 & -> & Hw & Hl & Hs & Ht & _).
    intros [= <-]. split; [|split].
    + revert Hwf. apply wellFormed_frame;
        unfold isClient, liveListeners; rewrite ?Hw, ?Hs, ?Hl, ?W; try done.
    + unfold isClient. by rewrite Hw, W.
    + intros L. left. by rewrite Hl.
  - unfold flush. destruct (ticks st) as [|t ts] eqn:Ht.
    { intros [= <-]. auto. }
    destruct (window st) as [w|] eqn:W; [|done].
    intros [= <-]. split; [|split].
    + revert Hwf. apply wellFormed_frame;
        unfold isClient, liveListeners; simpl; rewrite ?W; try done.
    + unfold isClient. simpl. by rewrite W.
    + intros L. by left.
  - destruct (scopes st !! s) as [sc|] eqn:Hs;
      [|unfold stop; by rewrite Hs].
    destruct (stop_effect st s sc Hwf Hs)
      as (st2 & -> & Hwf2 & _ & _ & _ & Hc & Hyes & Hno).
    intros [= <-]. do 2 (split; [done|]).
    destruct (holdsTeardown s st) eqn:Hh.
    + intros _. right. by exists s.
    + destruct (Hno eq_refl) as (L & Hw). intros L'. left. by rewrite L.
Qed.

Lemma reachable_wellFormed st : reachable st -> wellFormed st.
Proof.
  induction 1 as [location|st e st' _ IH E].
  - apply wellFormed_boot.
  - by destruct (exec_effect st e st' IH E).
Qed.

End Invariant.

(** ** Live watchers keep the raw caches in step *)

Section Coherence.

Context {T : Type}.
Implicit Types (b : Binding (T := T)) (st : State (T := T)).
Implicit Types (bs : list (Binding (T := T))).

Lemma onSearchParams_unwatched p b :
  isWatching b = false -> onSearchParams p b = b.
Proof. destruct b as [c|c]; simpl; by intros ->. Qed.

Lemma onSearchParams_watching p b :
  isWatching (onSearchParams p b) = isWatching b.
Proof.
  destruct b as [c|c]; simpl; destruct (watching c) eqn:W; simpl; try done.
  - by destruct (strictEq _ _).
  - by destruct (isEqualArrays _ _).
Qed.

Lemma onSearchParams_inStep p b :
  isWatching b = true -> sameRaw p (onSearchParams p b) = true.
Proof.
  destruct b as [c|c]; simpl; intros ->; simpl.
  - destruct (strictEq _ (writableValue c)) eqn:E; simpl; [done|].
    by apply strictEq_true.
  - destruct (isEqualArrays _ (writableValue c)) eqn:E; simpl; [done|].
    by apply isEqualArrays_true.
Qed.

Lemma inStep_triggered p bs :
  inStep p (map (onSearchParams p) bs).
Proof.
  intros i b Hi Hw. rewrite list_lookup_fmap in Hi.
  destruct (bs !! i) as [b0|]; [|done]. injection Hi as <-.
  rewrite onSearchParams_watching in Hw. by apply onSearchParams_inStep.
Qed.

Lemma inStep_unwatch p bs r :
  inStep p bs -> inStep p (alter unwatch r bs).
Proof.
  intros H i b Hi Hw. destruct (decide (i = r)) as [->|Hne].
  - rewrite list_lookup_alter_eq in Hi. destruct (bs !! r) as [b0|]; [|done].
    injection Hi as <-. by destruct b0.
  - rewrite list_lookup_alter_ne in Hi by done. by eapply H.
Qed.

Lemma inStep_cleanups cs st st' :
  inStep (searchParams st) (bindings st) ->
  foldl runCleanup (Returned st) cs = Returned st' ->
  inStep (searchParams st') (bindings st').
Proof.
  revert st. induction cs as [|[l|r] cs IH]; intros st H; simpl.
  - by intros [= <-].
  - destruct (window st) as [w|]; [by apply IH|].
    intros E. exfalso. revert E. clear. induction cs; simpl; [done|auto].
  - apply IH. simpl. by apply inStep_unwatch.
Qed.

Lemma inStep_dispatch (ls : list nat) st st' :
  inStep (searchParams st) (bindings st) ->
  foldl (fun o _ => bind o onPopstate) (Returned st) ls = Returned st' ->
  inStep (searchParams st') (bindings st').
Proof.
  revert st. induction ls as [|l ls IH]; intros st H; simpl.
  - by intros [= <-].
  - unfold onPopstate at 2. destruct (window st) as [w|].
    + apply IH. simpl. apply inStep_triggered.
    + intros E. exfalso. revert E. clear. induction ls; simpl; [done|auto].
Qed.

Lemma inStep_created st b :
  inStep (searchParams st) (bindings st) ->
  sameRaw (searchParams st) b = true ->
  inStep (searchParams st) (bindings st ++ [b]).
Proof.
  intros H Hb i b' Hi Hw. apply lookup_app_Some in Hi as [Hi|[_ Hi]].
  - by eapply H.
  - apply list_lookup_singleton_Some in Hi as [_ <-]. done.
Qed.

Lemma exec_inStep st e st' :
  inStep (searchParams st) (bindings st) -> exec e st = Returned st' ->
  inStep (searchParams st') (bindings st').
Proof.
  intros H. destruct e as [|n ser nav sc|n ser nav sc|ref v|ref v|loc| |s];
    simpl.
  - by intros [= <-].
  - destruct (running sc st); [|done]. unfold useSearchParam.
    match goal with |- context [listenPopstate sc ?x] => set (st1 := x) end.
    destruct (listenPopstate_returns sc st1) as (st2 & -> & Hb & Hp & _).
    simpl. intros [= <-]. rewrite Hb, Hp. unfold st1.
    destruct (watch_frame (length (bindings st)) sc
                (setBindings (bindings st ++ [Scalar
                   {| name := n; serializer := ser; navigate := nav;
                      writableValue := URLSearchParams.get n (searchParams st);
                      readableValue :=
                        read ser (URLSearchParams.get n (searchParams st));
                      watching := isClient st; triggered := 0 |}]) st))
      as (_ & _ & -> & -> & _).
    simpl. apply inStep_created; [done|]. simpl. by apply strictEq_true.
  - destruct (running sc st); [|done]. unfold useSearchParamArray.
    match goal with |- context [listenPopstate sc ?x] => set (st1 := x) end.
    destruct (listenPopstate_returns sc st1) as (st2 & -> & Hb & Hp & _).
    simpl. intros [= <-]. rewrite Hb, Hp. unfold st1.
    destruct (watch_frame (length (bindings st)) sc
                (setBindings (bindings st ++ [Array
                   {| name := n; serializer := ser; navigate := nav;
                      writableValue :=
                        URLSearchParams.getAll n (searchParams st);
                      readableValue :=
                        map (read ser)
                          (URLSearchParams.getAll n (searchParams st));
                      watching := isClient st; triggered := 0 |}]) st))
      as (_ & _ & -> & -> & _).
    simpl. apply inStep_created; [done|]. simpl. by apply isEqualArrays_true.
  - destruct (bindings st !! ref) as [[c|c]|] eqn:Hb;
      try (unfold useSearchParam_set; by rewrite Hb).
    destruct (strictEq (write (serializer c) v) (writableValue c)) eqn:E.
    { unfold useSearchParam_set. rewrite Hb, E. by intros [= <-]. }
    destruct (useSearchParam_set_changed st ref c v Hb E)
      as (st2 & -> & _ & Hbs & _).
    intros [= <-]. rewrite Hbs. apply inStep_triggered.
  - destruct (bindings st !! ref) as [[c|c]|] eqn:Hb;
      try (unfold useSearchParamArray_set; by rewrite Hb).
    destruct (isEqualArrays (map (write (serializer c)) v) (writableValue c))
      eqn:E.
    { unfold useSearchParamArray_set. rewrite Hb, E. by intros [= <-]. }
    destruct (useSearchParamArray_set_changed st ref c v Hb E)
      as (st2 & -> & _ & Hbs & _).
    intros [= <-]. rewrite Hbs. apply inStep_triggered.
  - unfold popstate. destruct (window st) as [w|]; [|done].
    by apply inStep_dispatch.
  - unfold flush. destruct (ticks st); [by intros [= <-]|].
    destruct (window st); [|done]. by intros [= <-].
  - unfold stop. destruct (scopes st !! s) as [sc|]; [|done].
    destruct (active sc); [|by intros [= <-]].
    by apply inStep_cleanups.
Qed.

Lemma reachable_inStep st :
  reachable st -> inStep (searchParams st) (bindings st).
Proof.
  induction 1 as [location|st e st' _ IH E].
  - by intros i b Hi.
  - by eapply exec_inStep.
Qed.

(** A binding that is in step, or has no watcher, sits out every trigger
    that leaves the values of its name alone. *)
Lemma onSearchParams_other p q b :
  sameRaw q b = true \/ isWatching b = false ->
  URLSearchParams.getAll (nameOf b) p = URLSearchParams.getAll (nameOf b) q ->
  onSearchParams p b = b.
Proof.
  intros [H|H] E.
  - apply onSearchParams_same. by rewrite (sameRaw_ext p q).
  - by apply onSearchParams_unwatched.
Qed.

End Coherence.

(** * The claims *)

Section Claims.

Context {T : Type}.
Implicit Types (b : Binding (T := T)) (st : State (T := T)).

Lemma flush_returns st :
  wellFormed st ->
  exists st',
    flush st = Returned st' /\ bindings st' = bindings st /\
    searchParams st' = searchParams st /\ detached st' = detached st.
Proof.
  intros Hwf. unfold flush. destruct (ticks st) as [|t ts] eqn:Ht.
  - by exists st.
  - destruct (window st) as [w|] eqn:W.
    + eexists. split; [reflexivity|]. by simpl.
    + unfold wellFormed in Hwf. rewrite W in Hwf.
      destruct Hwf as (_ & Hnil & _). congruence.
Qed.

Lemma set_wellFormed st e st' :
  wellFormed st -> exec e st = Returned st' -> wellFormed st'.
Proof. intros Hwf E. by destruct (exec_effect st e st' Hwf E). Qed.

(** C1 (amended).  After a write that passes the guard (the serialized
    value differs from the cached raw value), and after the deferred flush,
    the ref reads back the very value that was written: the setter stores
    its argument in the typed cache and nothing reads it again through the
    serializer.  Scalar and array refs alike. *)
Theorem set_reads_back_value st ref :
  reachable st ->
  (forall c v,
     bindings st !! ref = Some (Scalar c) ->
     strictEq (write (serializer c) v) (writableValue c) = false ->
     exists st' st'',
       useSearchParam_set ref v st = Returned st' /\
       flush st' = Returned st'' /\
       useSearchParam_get ref st' = Some v /\
       useSearchParam_get ref st'' = Some v) /\
  (forall c vs,
     bindings st !! ref = Some (Array c) ->
     isEqualArrays (map (write (serializer c)) vs) (writableValue c) = false ->
     exists st' st'',
       useSearchParamArray_set ref vs st = Returned st' /\
       flush st' = Returned st'' /\
       useSearchParamArray_get ref st' = Some vs /\
       useSearchParamArray_get ref st'' = Some vs).
Proof.
  intros Hr. apply reachable_wellFormed in Hr as Hwf. split.
  - intros c v Hb Hne.
    destruct (useSearchParam_set_changed st ref c v Hb Hne)
      as (st' & E & Hp & Hbs & _).
    assert (wellFormed st') as Hwf' by (by apply (set_wellFormed st (Set_ ref v))).
    destruct (flush_returns st' Hwf') as (st'' & F & Hbs' & _).
    exists st', st''. do 2 (split; [done|]).
    assert (bindings st' !! ref
            = Some (Scalar (assign c v (write (serializer c) v)))) as Hget.
    { rewrite Hbs, list_lookup_fmap, list_lookup_insert_eq
        by (by eapply lookup_lt_Some).
      simpl. f_equal. rewrite Hp. apply onSearchParams_own_scalar. }
    unfold useSearchParam_get. by rewrite Hbs', Hget.
  - intros c vs Hb Hne.
    destruct (useSearchParamArray_set_changed st ref c vs Hb Hne)
      as (st' & E & Hp & Hbs & _).
    assert (wellFormed st') as Hwf'
      by (by apply (set_wellFormed st (SetArray ref vs))).
    destruct (flush_returns st' Hwf') as (st'' & F & Hbs' & _).
    exists st', st''. do 2 (split; [done|]).
    assert (bindings st' !! ref
            = Some (Array (assign c vs (map (write (serializer c)) vs))))
      as Hget.
    { rewrite Hbs, list_lookup_fmap, list_lookup_insert_eq
        by (by eapply lookup_lt_Some).
      simpl. f_equal. rewrite Hp. apply onSearchParams_own_array. }
    unfold useSearchParamArray_get. by rewrite Hbs', Hget.
Qed.




(** C3 (amended).  For a scalar write that passes the guard (the
    serialized value differs from the cached raw value), and for a write
    the guard stops when the binding's raw cache agrees with the shared
    search params: a serialized form that is the empty string leaves the
    name in the shared search params with the empty string as its value;
    one that is [null] leaves the name absent; a string write never removes
    the name. *)
Theorem scalar_empty_string_kept_null_deleted st ref c v :
  bindings st !! ref = Some (Scalar c) ->
  strictEq (write (serializer c) v) (writableValue c) = false \/
  URLSearchParams.get (name c) (searchParams st) = writableValue c ->
  exists st',
    useSearchParam_set ref v st = Returned st' /\
    (write (serializer c) v = Some "" ->
       URLSearchParams.has (name c) (searchParams st') = true /\
       URLSearchParams.get (name c) (searchParams st') = Some "") /\
    (write (serializer c) v = None ->
       URLSearchParams.has (name c) (searchParams st') = false /\
       URLSearchParams.getAll (name c) (searchParams st') = []) /\
    (forall s, write (serializer c) v = Some s ->
       URLSearchParams.has (name c) (searchParams st') = true /\
       URLSearchParams.get (name c) (searchParams st') = Some s).
Proof.
  intros Hb Hor.
  assert (forall p s, URLSearchParams.get (name c) p = Some s ->
                      URLSearchParams.has (name c) p = true) as Hhas.
  { intros p s E. by rewrite usp_has_get, E. }
  destruct (strictEq (write (serializer c) v) (writableValue c)) eqn:E.
  - destruct Hor as [?|Hco]; [done|]. apply strictEq_true in E.
    exists st. split; [unfold useSearchParam_set; rewrite Hb, E;
                        by rewrite (proj2 (strictEq_true _ _) eq_refl)|].
    rewrite Hco, <- E. repeat split.
    + eapply Hhas. by rewrite Hco, <- E.
    + done.
    + rewrite usp_has_get, Hco, <- E, H. done.
    + destruct (URLSearchParams.getAll (name c) (searchParams st)) eqn:G;
        [done|].
      rewrite usp_get_head, G in Hco. simpl in Hco. congruence.
    + eapply Hhas. by rewrite Hco, <- E.
    + done.
  - destruct (useSearchParam_set_changed st ref c v Hb E)
      as (st' & -> & Hp & _).
    exists st'. split; [done|]. rewrite Hp. repeat split.
    + rewrite H. eapply Hhas, usp_get_set_eq.
    + rewrite H. apply usp_get_set_eq.
    + rewrite H. apply usp_has_delete_eq.
    + rewrite H. apply usp_getAll_delete_eq.
    + rewrite H. eapply Hhas, usp_get_set_eq.
    + rewrite H. apply usp_get_set_eq.
Qed.

Lemma replaceAll_shape n vs p :
  replaceAll n vs p = URLSearchParams.delete n p ++ map (pair n) vs.
Proof.
  unfold replaceAll. generalize (URLSearchParams.delete n p) as q.
  induction vs as [|v vs IH]; intros q; simpl.
  - by rewrite app_nil_r.
  - rewrite IH. unfold URLSearchParams.append. by rewrite <- app_assoc.
Qed.

(** C4.  After an array write that passes the guard, the values of the
    binding's name in the shared search params are the element-wise
    serialization of the new list, in order: the old pairs of that name are
    removed and one pair per new value is appended.  The empty list removes
    every occurrence of the name. *)
Theorem array_write_replaces_in_order st ref c vs :
  bindings st !! ref = Some (Array c) ->
  isEqualArrays (map (write (serializer c)) vs) (writableValue c) = false ->
  exists st',
    useSearchParamArray_set ref vs st = Returned st' /\
    searchParams st' =
      URLSearchParams.delete (name c) (searchParams st) ++
      map (pair (name c)) (map (write (serializer c)) vs) /\
    URLSearchParams.getAll (name c) (searchParams st') =
      map (write (serializer c)) vs /\
    (vs = [] -> URLSearchParams.has (name c) (searchParams st') = false).
Proof.
  intros Hb Hne.
  destruct (useSearchParamArray_set_changed st ref c vs Hb Hne)
    as (st' & -> & Hp & _).
  exists st'. split; [done|]. rewrite Hp. repeat split.
  - apply replaceAll_shape.
  - apply usp_getAll_replaceAll_eq.
  - intros ->. simpl. unfold replaceAll. simpl. apply usp_has_delete_eq.
Qed.

(** What a write leaves of the bindings of other names. *)
Lemma other_binding_kept st i b (p : URLSearchParams.t) ref b' b'' :
  reachable st ->
  bindings st !! i = Some b ->
  bindings st !! ref = Some b' ->
  nameOf b' <> nameOf b ->
  URLSearchParams.getAll (nameOf b) p =
    URLSearchParams.getAll (nameOf b) (searchParams st) ->
  map (onSearchParams p) (<[ref := b'']> (bindings st)) !! i = Some b.
Proof.
  intros Hr Hi Href Hn Hp.
  assert (i <> ref) as Hne by (intros ->; congruence).
  rewrite list_lookup_fmap, list_lookup_insert_ne, Hi by done. simpl.
  f_equal. apply (onSearchParams_other p (searchParams st)); [|done].
  destruct (isWatching b) eqn:W; [left|by right].
  by apply (reachable_inStep st Hr i).
Qed.

Lemma dispatch_same (ls : list nat) st w i b :
  window st = Some w ->
  sameRaw (search (history w)) b = true \/ isWatching b = false ->
  bindings st !! i = Some b ->
  forall st',
    foldl (fun o _ => bind o onPopstate) (Returned st) ls = Returned st' ->
    bindings st' !! i = Some b.
Proof.
  revert st. induction ls as [|l ls IH]; intros st W Hsame Hi st'; simpl.
  - by intros [= <-].
  - unfold onPopstate at 2. rewrite W. apply IH; try done.
    rewrite triggerRef_lookup. simpl. rewrite Hi. simpl. f_equal.
    by apply (onSearchParams_other _ (search (history w))).
Qed.

(** C5.  When the value(s) of a binding's name in the shared search params
    equal its raw cache (scalar: strictly equal first value, [null]
    included; array: same length and pairwise strictly equal), the
    binding's watcher callback returns the binding as it was: no observer
    notified, raw and typed cache unchanged.  Hence, in every state the
    module can reach, a write through a binding of another name, or a
    navigation that keeps the values of this name, leaves the binding and
    its notification count as they were. *)
Theorem watcher_silent_when_unchanged :
  (forall p b, sameRaw p b = true -> onSearchParams p b = b) /\
  (forall st ref c v st' i b,
     reachable st ->
     bindings st !! ref = Some (Scalar c) ->
     bindings st !! i = Some b -> name c <> nameOf b ->
     useSearchParam_set ref v st = Returned st' ->
     bindings st' !! i = Some b) /\
  (forall st ref c vs st' i b,
     reachable st ->
     bindings st !! ref = Some (Array c) ->
     bindings st !! i = Some b -> name c <> nameOf b ->
     useSearchParamArray_set ref vs st = Returned st' ->
     bindings st' !! i = Some b) /\
  (forall st loc st' i b,
     reachable st ->
     bindings st !! i = Some b ->
     URLSearchParams.getAll (nameOf b) loc =
       URLSearchParams.getAll (nameOf b) (searchParams st) ->
     popstate loc st = Returned st' ->
     bindings st' !! i = Some b).
Proof.
  split; [apply @onSearchParams_same|]. repeat split.
  - intros st ref c v st' i b Hr Href Hi Hn.
    destruct (strictEq (write (serializer c) v) (writableValue c)) eqn:E.
    { unfold useSearchParam_set. rewrite Href, E. by intros [= <-]. }
    destruct (useSearchParam_set_changed st ref c v Href E)
      as (st2 & -> & Hp & Hbs & _).
    intros [= <-]. rewrite Hbs.
    eapply (other_binding_kept st i b _ ref (Scalar c)); try done.
    rewrite Hp. destruct (write (serializer c) v).
    + by apply usp_getAll_set_ne.
    + by apply usp_getAll_delete_ne.
  - intros st ref c vs st' i b Hr Href Hi Hn.
    destruct (isEqualArrays (map (write (serializer c)) vs) (writableValue c))
      eqn:E.
    { unfold useSearchParamArray_set. rewrite Href, E. by intros [= <-]. }
    destruct (useSearchParamArray_set_changed st ref c vs Href E)
      as (st2 & -> & Hp & Hbs & _).
    intros [= <-]. rewrite Hbs.
    eapply (other_binding_kept st i b _ ref (Array c)); try done.
    rewrite Hp. by apply usp_getAll_replaceAll_ne.
  - intros st loc st' i b Hr Hi Hloc. unfold popstate.
    destruct (window st) as [w|] eqn:W; [|done].
    eapply dispatch_same; [reflexivity| |by simpl]. simpl.
    destruct (isWatching b) eqn:Hw; [left|by right].
    rewrite (sameRaw_ext loc (searchParams st)) by done.
    by apply (reachable_inStep st Hr i).
Qed.

(** C6.  A write whose serialized form equals the raw cache (scalar: strict
    equality; array: same length and pairwise strictly equal) returns the
    state it was given: shared search params, both caches, the listener
    flag, the notification counts and the tick queue are all unchanged. *)
Theorem set_same_raw_is_noop st ref :
  (forall c v,
     bindings st !! ref = Some (Scalar c) ->
     strictEq (write (serializer c) v) (writableValue c) = true ->
     useSearchParam_set ref v st = Returned st) /\
  (forall c vs,
     bindings st !! ref = Some (Array c) ->
     isEqualArrays (map (write (serializer c)) vs) (writableValue c) = true ->
     useSearchParamArray_set ref vs st = Returned st).
Proof.
  split.
  - intros c v Hb E. unfold useSearchParam_set. by rewrite Hb, E.
  - intros c vs Hb E. unfold useSearchParamArray_set. by rewrite Hb, E.
Qed.

(** C10.  A write through a binding of name [n] leaves the values of every
    other name [m] in the shared search params as they were, in the same
    order. *)
Theorem write_frames_other_names st ref m :
  (forall c v,
     bindings st !! ref = Some (Scalar c) -> m <> name c ->
     exists st',
       useSearchParam_set ref v st = Returned st' /\
       URLSearchParams.getAll m (searchParams st') =
         URLSearchParams.getAll m (searchParams st)) /\
  (forall c vs,
     bindings st !! ref = Some (Array c) -> m <> name c ->
     exists st',
       useSearchParamArray_set ref vs st = Returned st' /\
       URLSearchParams.getAll m (searchParams st') =
         URLSearchParams.getAll m (searchParams st)).
Proof.
  split.
  - intros c v Hb Hm.
    destruct (strictEq (write (serializer c) v) (writableValue c)) eqn:E.
    { exists st. unfold useSearchParam_set. by rewrite Hb, E. }
    destruct (useSearchParam_set_changed st ref c v Hb E)
      as (st' & -> & Hp & _).
    exists st'. split; [done|]. rewrite Hp.
    destruct (write (serializer c) v).
    + by apply usp_getAll_set_ne.
    + by apply usp_getAll_delete_ne.
  - intros c vs Hb Hm.
    destruct (isEqualArrays (map (write (serializer c)) vs) (writableValue c))
      eqn:E.
    { exists st. unfold useSearchParamArray_set. by rewrite Hb, E. }
    destruct (useSearchParamArray_set_changed st ref c vs Hb E)
      as (st' & -> & Hp & _).
    exists st'. split; [done|]. rewrite Hp.
    by apply usp_getAll_replaceAll_ne.
Qed.

Lemma listenMany_settled calls st :
  isClient st = false \/ isListeningPopsate st = true ->
  listenMany calls st = Returned st.
Proof.
  intros H. unfold listenMany. induction calls as [|c calls IH]; [done|].
  simpl. unfold listenPopstate at 2.
  destruct H as [-> | ->]; simpl; [apply IH|].
  rewrite orb_true_r. apply IH.
Qed.

Lemma wellFormed_listeners st :
  wellFormed st ->
  length (liveListeners st) = if isListeningPopsate st then 1 else 0.
Proof.
  unfold wellFormed, liveListeners. destruct (window st) as [w|].
  - destruct (isListeningPopsate st).
    + by intros (l & -> & _).
    + by intros [-> _].
  - by intros (-> & _).
Qed.

(** C7.  Installing the listener is idempotent: any number of calls, from
    any bindings and scopes, leaves what the first call leaves; a call made
    while the flag is set changes nothing; and in every state the module
    can reach there is at most one live listener afterwards, exactly one on
    the client. *)
Theorem listenPopstate_idempotent st scope calls :
  listenMany (scope :: calls) st = listenPopstate scope st /\
  (isListeningPopsate st = true ->
     listenMany (scope :: calls) st = Returned st) /\
  (reachable st ->
     exists st',
       listenMany (scope :: calls) st = Returned st' /\
       length (liveListeners st') <= 1 /\
       (isClient st = true ->
          isListeningPopsate st' = true /\ length (liveListeners st') = 1)).
Proof.
  destruct (listenPopstate_returns scope st)
    as (st1 & E & _ & _ & _ & _ & Hc & _ & Hsame & Hon).
  assert (listenMany (scope :: calls) st = Returned st1) as Hmany.
  { change (listenMany (scope :: calls) st)
      with (foldl (fun o sc => bind o (listenPopstate sc))
              (bind (Returned st) (listenPopstate scope)) calls).
    simpl. rewrite E. apply listenMany_settled.
    destruct (isClient st) eqn:C; [right; by apply Hon|left; by rewrite Hc]. }
  split; [by rewrite Hmany, E|]. split.
  - intros L. by rewrite Hmany, (Hsame L).
  - intros Hr. exists st1. split; [done|].
    assert (wellFormed st1) as Hwf
      by (eapply listenPopstate_wellFormed; [by apply reachable_wellFormed|done]).
    rewrite (wellFormed_listeners st1 Hwf). split.
    + destruct (isListeningPopsate st1); lia.
    + intros C. by rewrite (Hon C).
Qed.

(** The flag and the listener along one event.  While the flag is set
    exactly one listener is live, otherwise none; a set flag falls exactly
    when a running scope that holds the teardown hook is stopped; and with
    the flag down on the client the next install call puts a listener
    back. *)
Theorem flag_and_listener_along_event st e st' :
  reachable st -> exec e st = Returned st' ->
  length (liveListeners st') = (if isListeningPopsate st' then 1 else 0) /\
  (isListeningPopsate st = true ->
     (isListeningPopsate st' = false <->
      exists s, e = Stop s /\ holdsTeardown s st = true)) /\
  (isClient st' = true -> isListeningPopsate st' = false ->
     forall scope, exists st'',
       listenPopstate scope st' = Returned st'' /\
       isListeningPopsate st'' = true /\
       length (liveListeners st'') = 1).
Proof.
  intros Hr E. apply reachable_wellFormed in Hr as Hwf.
  destruct (exec_effect st e st' Hwf E) as (Hwf' & Hc & Hkeep).
  split; [by apply wellFormed_listeners|]. split.
  - intros L. split.
    + intros L'. destruct (Hkeep L) as [?|?]; [congruence|done].
    + intros (s & -> & Hh). simpl in E.
      assert (exists sc, scopes st !! s = Some sc) as [sc Hs].
      { unfold holdsTeardown in Hh. destruct (scopes st !! s); [eauto|done]. }
      destruct (stop_effect st s sc Hwf Hs)
        as (st2 & E2 & _ & _ & _ & _ & _ & Hyes & _).
      rewrite E in E2. injection E2 as <-. by destruct (Hyes Hh) as (_ & ? & _).
  - intros C L scope.
    destruct (listenPopstate_returns scope st')
      as (st'' & E2 & _ & _ & _ & _ & _ & _ & _ & Hon).
    exists st''. split; [done|]. split; [by apply Hon|].
    assert (wellFormed st'') as Hwf''
      by (by eapply listenPopstate_wellFormed).
    by rewrite (wellFormed_listeners st'' Hwf''), (Hon C).
Qed.

(** C9.  Without a window nothing throws: installing the listener returns
    the state unchanged; creating a ref returns a ref whose watcher is not
    registered, with no listener, no flag set, no scope hook and no queued
    navigate, initialised from the shared search params and readable; a
    write returns and queues no navigate call. *)
Theorem server_side_never_throws st :
  window st = None ->
  (forall scope, listenPopstate scope st = Returned st) /\
  (forall n ser nav scope, exists st' b,
     useSearchParam n ser nav scope st = Returned (length (bindings st), st') /\
     bindings st' = bindings st ++ [b] /\ isWatching b = false /\
     useSearchParam_get (length (bindings st)) st'
       = Some (read ser (URLSearchParams.get n (searchParams st))) /\
     window st' = None /\ liveListeners st' = [] /\
     isListeningPopsate st' = isListeningPopsate st /\
     scopes st' = scopes st /\ ticks st' = ticks st) /\
  (forall n ser nav scope, exists st' b,
     useSearchParamArray n ser nav scope st
       = Returned (length (bindings st), st') /\
     bindings st' = bindings st ++ [b] /\ isWatching b = false /\
     useSearchParamArray_get (length (bindings st)) st'
       = Some (map (read ser) (URLSearchParams.getAll n (searchParams st))) /\
     window st' = None /\ liveListeners st' = [] /\
     isListeningPopsate st' = isListeningPopsate st /\
     scopes st' = scopes st /\ ticks st' = ticks st) /\
  (forall ref c v, bindings st !! ref = Some (Scalar c) -> exists st',
     useSearchParam_set ref v st = Returned st' /\
     is_Some (useSearchParam_get ref st') /\
     window st' = None /\ ticks st' = ticks st /\
     isListeningPopsate st' = isListeningPopsate st /\
     scopes st' = scopes st) /\
  (forall ref c vs, bindings st !! ref = Some (Array c) -> exists st',
     useSearchParamArray_set ref vs st = Returned st' /\
     is_Some (useSearchParamArray_get ref st') /\
     window st' = None /\ ticks st' = ticks st /\
     isListeningPopsate st' = isListeningPopsate st /\
     scopes st' = scopes st).
Proof.
  intros W.
  assert (forall scope st0, window st0 = None ->
                            listenPopstate scope st0 = Returned st0) as Hl.
  { intros scope st0 W0. unfold listenPopstate, isClient. by rewrite W0. }
  split; [intros; by apply Hl|]. repeat split.
  - intros n ser nav scope. unfold useSearchParam, watch, isClient.
    simpl. rewrite W. rewrite Hl by done. simpl.
    eexists _, _. split; [reflexivity|]. simpl. split; [reflexivity|].
    unfold useSearchParam_get, liveListeners. simpl.
    rewrite list_lookup_middle by done. by rewrite W.
  - intros n ser nav scope. unfold useSearchParamArray, watch, isClient.
    simpl. rewrite W. rewrite Hl by done. simpl.
    eexists _, _. split; [reflexivity|]. simpl. split; [reflexivity|].
    unfold useSearchParamArray_get, liveListeners. simpl.
    rewrite list_lookup_middle by done. by rewrite W.
  - intros ref c v Hb.
    destruct (strictEq (write (serializer c) v) (writableValue c)) eqn:E.
    { exists st. unfold useSearchParam_set, useSearchParam_get.
      rewrite Hb, E. by repeat split. }
    destruct (useSearchParam_set_changed st ref c v Hb E)
      as (st' & -> & _ & Hbs & Ht & Hw & _ & Hf & Hs & _).
    exists st'. unfold isClient in Ht. rewrite W in Ht.
    rewrite Hw. repeat split; try done.
    unfold useSearchParam_get.
    rewrite Hbs, list_lookup_fmap, list_lookup_insert_eq
      by (by eapply lookup_lt_Some).
    simpl. destruct (watching c); simpl; [|by eexists].
    destruct (strictEq (URLSearchParams.get _ _) _); by eexists.
  - intros ref c vs Hb.
    destruct (isEqualArrays (map (write (serializer c)) vs) (writableValue c))
      eqn:E.
    { exists st. unfold useSearchParamArray_set, useSearchParamArray_get.
      rewrite Hb, E. by repeat split. }
    destruct (useSearchParamArray_set_changed st ref c vs Hb E)
      as (st' & -> & _ & Hbs & Ht & Hw & _ & Hf & Hs & _).
    exists st'. unfold isClient in Ht. rewrite W in Ht.
    rewrite Hw. repeat split; try done.
    unfold useSearchParamArray_get.
    rewrite Hbs, list_lookup_fmap, list_lookup_insert_eq
      by (by eapply lookup_lt_Some).
    simpl. destruct (watching c); simpl; [|by eexists].
    destruct (isEqualArrays (URLSearchParams.getAll _ _) _); by eexists.
Qed.

End Claims.

(** ** Runs stay among the reachable states *)

Lemma run_reachable {T : Type} (es : list (Event (T := T))) st st' :
  reachable st -> run es st = Returned st' -> reachable st'.
Proof.
  unfold run. revert st. induction es as [|e es IH]; intros st Hr; simpl.
  - by intros [= <-].
  - destruct (exec e st) as [st1| |] eqn:E; simpl.
    + apply IH. by eapply reachable_exec.
    + intros H. exfalso. revert H. clear. induction es; simpl; [done|auto].
    + intros H. exfalso. revert H. clear. induction es; simpl; [done|auto].
Qed.

Lemma settled_reachable {T : Type} (es : list (Event (T := T))) location :
  (if run es (boot location) is Returned _ then true else false) = true ->
  reachable (settled (run es (boot location))).
Proof.
  destruct (run es (boot location)) as [st| |] eqn:E; try done.
  intros _. simpl. eapply run_reachable; [apply reachable_boot|done].
Qed.

Lemma pageFoo_reachable : reachable pageFoo.
Proof. apply settled_reachable. vm_compute. reflexivity. Qed.

Lemma pageParity_reachable : reachable pageParity.
Proof. apply settled_reachable. vm_compute. reflexivity. Qed.

Lemma pageTags_reachable : reachable pageTags.
Proof. apply settled_reachable. vm_compute. reflexivity. Qed.

(** * The claims on concrete pages *)

(** C1: the parity serializer turns 5 into "odd" and "odd" into 1, yet the
    ref reads 5 after the write and after the flush. *)
Lemma set_does_not_reserialize :
  exists c st' st'',
    bindings pageParity !! 0 = Some (Scalar c) /\
    strictEq (write (serializer c) 5) (writableValue c) = false /\
    useSearchParam_set 0 5 pageParity = Returned st' /\
    flush st' = Returned st'' /\
    read (serializer c) (write (serializer c) 5) = 1 /\
    useSearchParam_get 0 st'' = Some 5 /\
    useSearchParam_get 0 st''
      <> Some (read (serializer c) (write (serializer c) 5)).
Proof.
  do 3 eexists.
  split; [vm_compute; reflexivity|]. split; [vm_compute; reflexivity|].
  split; [vm_compute; reflexivity|]. split; [vm_compute; reflexivity|].
  split; [vm_compute; reflexivity|]. split; [vm_compute; reflexivity|].
  vm_compute. discriminate.
Qed.

Lemma set_reads_back_value_witness :
  reachable pageParity /\
  (exists st' st'',
     useSearchParam_set 0 5 pageParity = Returned st' /\
     flush st' = Returned st'' /\
     useSearchParam_get 0 st' = Some 5 /\
     useSearchParam_get 0 st'' = Some 5) /\
  (exists st' st'',
     useSearchParamArray_set 1 [3; 4] pageParity = Returned st' /\
     flush st' = Returned st'' /\
     useSearchParamArray_get 1 st' = Some [3; 4] /\
     useSearchParamArray_get 1 st'' = Some [3; 4]).
Proof.
  split; [exact pageParity_reachable|]. split.
  - eapply (proj1 (set_reads_back_value pageParity 0 pageParity_reachable));
      vm_compute; reflexivity.
  - eapply (proj2 (set_reads_back_value pageParity 1 pageParity_reachable));
      vm_compute; reflexivity.
Defined.



Lemma scalar_empty_string_kept_null_deleted_witness :
  (exists c st',
     bindings pageFoo !! 0 = Some (Scalar c) /\
     (strictEq (write (serializer c) (Some "")) (writableValue c) = false \/
      URLSearchParams.get (name c) (searchParams pageFoo) = writableValue c) /\
     useSearchParam_set 0 (Some "") pageFoo = Returned st' /\
     URLSearchParams.has "foo" (searchParams st') = true /\
     URLSearchParams.get "foo" (searchParams st') = Some "") /\
  (exists st c st',
     run [Set_ 0 (Some "bar")] pageFoo = Returned st /\
     URLSearchParams.has "foo" (searchParams st) = true /\
     bindings st !! 0 = Some (Scalar c) /\
     (strictEq (write (serializer c) None) (writableValue c) = false \/
      URLSearchParams.get (name c) (searchParams st) = writableValue c) /\
     useSearchParam_set 0 None st = Returned st' /\
     URLSearchParams.has "foo" (searchParams st') = false /\
     URLSearchParams.getAll "foo" (searchParams st') = []).
Proof.
  split.
  - pose (c := {| name := "foo"; serializer := identity;
                  navigate := defaultNavigate;
                  writableValue := @None string;
                  readableValue := @None string;
                  watching := true; triggered := 0 |}).
    assert (Hb : bindings pageFoo !! 0 = Some (Scalar c))
      by (vm_compute; reflexivity).
    assert (Hne : strictEq (write (serializer c) (Some "")) (writableValue c)
                  = false) by (vm_compute; reflexivity).
    destruct (scalar_empty_string_kept_null_deleted pageFoo 0 c (Some "")
                Hb (or_introl Hne)) as (st' & E & Hempty & _).
    exists c, st'. split; [exact Hb|]. split; [left; exact Hne|].
    split; [exact E|]. apply Hempty. vm_compute. reflexivity.
  - set (st := settled (run [Set_ 0 (Some "bar")] pageFoo)).
    pose (c := {| name := "foo"; serializer := identity;
                  navigate := defaultNavigate;
                  writableValue := Some "bar";
                  readableValue := Some "bar";
                  watching := true; triggered := 1 |}).
    assert (Hrun : run [Set_ 0 (Some "bar")] pageFoo = Returned st)
      by (vm_compute; reflexivity).
    assert (Hhas : URLSearchParams.has "foo" (searchParams st) = true)
      by (vm_compute; reflexivity).
    assert (Hb : bindings st !! 0 = Some (Scalar c))
      by (vm_compute; reflexivity).
    assert (Hne : strictEq (write (serializer c) None) (writableValue c)
                  = false) by (vm_compute; reflexivity).
    destruct (scalar_empty_string_kept_null_deleted st 0 c None
                Hb (or_introl Hne)) as (st' & E & _ & Hnull & _).
    exists st, c, st'. split; [exact Hrun|]. split; [exact Hhas|].
    split; [exact Hb|]. split; [left; exact Hne|]. split; [exact E|].
    apply Hnull. vm_compute. reflexivity.
Defined.

(** C3: server rendering, three refs on "foo".  The second has written the
    empty string, then the first has written "bar"; without a window no ref
    has a watcher, so the second still caches the empty string and the
    third still caches [null].  Writing the empty string through the second
    is stopped by the guard and "foo" stays mapped to "bar"; writing [null]
    through the third is stopped by the guard and "foo" stays present. *)
Lemma stale_ref_write_stopped_by_guard :
  exists st st1 st2 : State (T := option string),
    run [Use "foo" identity defaultNavigate None;
         Use "foo" identity defaultNavigate None;
         Use "foo" identity defaultNavigate None;
         Set_ 1 (Some ""); Set_ 0 (Some "bar")] (boot None) = Returned st /\
    reachable st /\
    nameOf <$> bindings st !! 1 = Some "foo" /\
    nameOf <$> bindings st !! 2 = Some "foo" /\
    write identity (Some "") = Some "" /\
    useSearchParam_set 1 (Some "") st = Returned st1 /\
    URLSearchParams.get "foo" (searchParams st1) = Some "bar" /\
    write identity None = None /\
    useSearchParam_set 2 None st = Returned st2 /\
    URLSearchParams.has "foo" (searchParams st2) = true.
Proof.
  eexists _, _, _.
  split; [vm_compute; reflexivity|].
  split.
  { apply (run_reachable
             [Use "foo" identity defaultNavigate None;
              Use "foo" identity defaultNavigate None;
              Use "foo" identity defaultNavigate None;
              Set_ 1 (Some ""); Set_ 0 (Some "bar")] (boot None));
      [apply reachable_boot | vm_compute; reflexivity]. }
  split; [vm_compute; reflexivity|]. split; [vm_compute; reflexivity|].
  split; [vm_compute; reflexivity|]. split; [vm_compute; reflexivity|].
  split; [vm_compute; reflexivity|]. split; [vm_compute; reflexivity|].
  split; vm_compute; reflexivity.
Qed.

Lemma array_write_replaces_in_order_witness :
  exists c st',
    bindings pageTags !! 1 = Some (Array c) /\
    isEqualArrays (map (write (serializer c)) ["x"; "y"; "x"]) (writableValue c)
      = false /\
    useSearchParamArray_set 1 ["x"; "y"; "x"] pageTags = Returned st' /\
    searchParams st' =
      [("page", "2"); ("q", "rocq"); ("tag", "x"); ("tag", "y"); ("tag", "x")] /\
    URLSearchParams.getAll "tag" (searchParams st') = ["x"; "y"; "x"].
Proof.
  pose (c := {| name := "tag"; serializer := identityItem;
                navigate := defaultNavigate; writableValue := ["a"; "b"];
                readableValue := ["a"; "b"]; watching := true;
                triggered := 1 |}).
  assert (Hb : bindings pageTags !! 1 = Some (Array c))
    by (vm_compute; reflexivity).
  assert (Hne : isEqualArrays (map (write (serializer c)) ["x"; "y"; "x"])
                  (writableValue c) = false) by (vm_compute; reflexivity).
  destruct (array_write_replaces_in_order pageTags 1 c ["x"; "y"; "x"] Hb Hne)
    as (st' & E & Hshape & Hall & _).
  exists c, st'. split; [exact Hb|]. split; [exact Hne|]. split; [exact E|].
  split; [exact Hshape | exact Hall].
Defined.

Lemma watcher_silent_when_unchanged_witness :
  (exists b,
     bindings pageTags !! 1 = Some b /\
     sameRaw [("tag", "a"); ("other", "1"); ("tag", "b")] b = true /\
     onSearchParams [("tag", "a"); ("other", "1"); ("tag", "b")] b = b) /\
  reachable pageTags /\
  (exists c b st',
     bindings pageTags !! 0 = Some (Scalar c) /\
     bindings pageTags !! 1 = Some b /\ name c <> nameOf b /\
     useSearchParam_set 0 "coq" pageTags = Returned st' /\
     bindings st' !! 1 = Some b) /\
  (exists c b st',
     bindings pageTags !! 1 = Some (Array c) /\
     bindings pageTags !! 0 = Some b /\ name c <> nameOf b /\
     useSearchParamArray_set 1 [] pageTags = Returned st' /\
     bindings st' !! 0 = Some b) /\
  (exists b st',
     bindings pageTags !! 0 = Some b /\
     URLSearchParams.getAll (nameOf b) [("q", "rocq"); ("tag", "new")] =
       URLSearchParams.getAll (nameOf b) (searchParams pageTags) /\
     popstate [("q", "rocq"); ("tag", "new")] pageTags = Returned st' /\
     bindings st' !! 0 = Some b).
Proof.
  destruct (@watcher_silent_when_unchanged string)
    as (Hcb & Hscalar & Harray & Hnav).
  pose proof pageTags_reachable as Hr.
  split; [|split; [|split; [|split]]].
  - eexists. split; [vm_compute; reflexivity|].
    split; [vm_compute; reflexivity|].
    refine (Hcb _ _ _). vm_compute. reflexivity.
  - exact Hr.
  - eexists _, _, _. split; [vm_compute; reflexivity|].
    split; [vm_compute; reflexivity|]. split; [vm_compute; discriminate|].
    split; [vm_compute; reflexivity|].
    eapply (Hscalar pageTags 0 _ "coq" _ 1 _ Hr);
      try (vm_compute; reflexivity). vm_compute. discriminate.
  - eexists _, _, _. split; [vm_compute; reflexivity|].
    split; [vm_compute; reflexivity|]. split; [vm_compute; discriminate|].
    split; [vm_compute; reflexivity|].
    eapply (Harray pageTags 1 _ [] _ 0 _ Hr);
      try (vm_compute; reflexivity). vm_compute. discriminate.
  - eexists _, _. split; [vm_compute; reflexivity|].
    split; [vm_compute; reflexivity|]. split; [vm_compute; reflexivity|].
    eapply (Hnav pageTags [("q", "rocq"); ("tag", "new")] _ 0 _ Hr);
      vm_compute; reflexivity.
Defined.

Lemma set_same_raw_is_noop_witness :
  (exists c,
     bindings pageTags !! 0 = Some (Scalar c) /\
     strictEq (write (serializer c) "rocq") (writableValue c) = true /\
     useSearchParam_set 0 "rocq" pageTags = Returned pageTags) /\
  (exists c,
     bindings pageTags !! 1 = Some (Array c) /\
     isEqualArrays (map (write (serializer c)) ["a"; "b"]) (writableValue c)
       = true /\
     useSearchParamArray_set 1 ["a"; "b"] pageTags = Returned pageTags).
Proof.
  destruct (set_same_raw_is_noop pageTags 0) as (Hscalar & _).
  destruct (set_same_raw_is_noop pageTags 1) as (_ & Harray).
  split.
  - eexists. split; [vm_compute; reflexivity|].
    split; [vm_compute; reflexivity|].
    eapply Hscalar; vm_compute; reflexivity.
  - eexists. split; [vm_compute; reflexivity|].
    split; [vm_compute; reflexivity|].
    eapply Harray; vm_compute; reflexivity.
Defined.

Lemma write_frames_other_names_witness :
  (exists c,
     bindings pageTags !! 0 = Some (Scalar c) /\ "tag" <> name c /\
     exists st',
       useSearchParam_set 0 "coq" pageTags = Returned st' /\
       URLSearchParams.getAll "tag" (searchParams st') =
         URLSearchParams.getAll "tag" (searchParams pageTags)) /\
  (exists c,
     bindings pageTags !! 1 = Some (Array c) /\ "page" <> name c /\
     exists st',
       useSearchParamArray_set 1 [] pageTags = Returned st' /\
       URLSearchParams.getAll "page" (searchParams st') =
         URLSearchParams.getAll "page" (searchParams pageTags)).
Proof.
  split.
  - eexists. split; [vm_compute; reflexivity|].
    split; [vm_compute; discriminate|].
    eapply (proj1 (write_frames_other_names pageTags 0 "tag"));
      [vm_compute; reflexivity | vm_compute; discriminate].
  - eexists. split; [vm_compute; reflexivity|].
    split; [vm_compute; discriminate|].
    eapply (proj2 (write_frames_other_names pageTags 1 "page"));
      [vm_compute; reflexivity | vm_compute; discriminate].
Defined.

Lemma pageMounted_reachable : reachable pageMounted.
Proof. apply settled_reachable. vm_compute. reflexivity. Qed.

Lemma listenPopstate_idempotent_witness :
  (isListeningPopsate pageFoo = true /\
   listenMany [None; Some 0; None] pageFoo = Returned pageFoo) /\
  (reachable (boot (T := option string) (Some [])) /\
   exists st' : State (T := option string),
     listenMany [Some 0; None; None] (boot (Some [])) = Returned st' /\
     listenPopstate (Some 0) (boot (Some [])) = Returned st' /\
     isListeningPopsate st' = true /\ length (liveListeners st') = 1).
Proof.
  split.
  - split; [vm_compute; reflexivity|].
    apply (listenPopstate_idempotent pageFoo None [Some 0; None]).
    vm_compute. reflexivity.
  - split; [apply reachable_boot|].
    destruct (listenPopstate_idempotent (boot (T := option string) (Some []))
                (Some 0) [None; None]) as (Hfirst & _ & Hreach).
    destruct (Hreach (reachable_boot _)) as (st' & E & _ & Hon).
    exists st'. split; [exact E|]. split; [by rewrite <- Hfirst|].
    apply Hon. vm_compute. reflexivity.
Defined.

(** C8, where the code departs from it: two components in two scopes, the
    listener is installed by the first.  Once the first is unmounted, the
    second scope is still running and still owns the watcher of its ref,
    yet no listener is live and the flag is down: a navigation to [?b=x]
    no longer reaches the ref on "b", which the documentation of
    [useSearchParam] says listens to [popstate]. *)
Lemma listener_gone_while_binding_scope_alive :
  exists st st' : State (T := option string),
    run twoScopes (boot (Some [])) = Returned st /\
    owns 1 1 st = true /\
    isListeningPopsate st = false /\ liveListeners st = [] /\
    popstate [("b", "x")] st = Returned st' /\
    URLSearchParams.get "b" (searchParams st') = None /\
    useSearchParam_get 1 st' = Some None.
Proof.
  eexists _, _.
  split; [vm_compute; reflexivity|]. split; [vm_compute; reflexivity|].
  split; [vm_compute; reflexivity|]. split; [vm_compute; reflexivity|].
  split; [vm_compute; reflexivity|]. split; vm_compute; reflexivity.
Qed.

Lemma flag_and_listener_along_event_example :
  exists st',
    reachable pageMounted /\
    exec (Stop 0) pageMounted = Returned st' /\
    isListeningPopsate pageMounted = true /\
    holdsTeardown 0 pageMounted = true /\
    isListeningPopsate st' = false /\
    length (liveListeners st') = 0 /\
    exists st'',
      listenPopstate None st' = Returned st'' /\
      isListeningPopsate st'' = true /\ length (liveListeners st'') = 1.
Proof.
  set (st' := settled (exec (Stop 0) pageMounted)).
  assert (E : exec (Stop 0) pageMounted = Returned st')
    by (vm_compute; reflexivity).
  assert (L : isListeningPopsate pageMounted = true)
    by (vm_compute; reflexivity).
  assert (Hh : holdsTeardown 0 pageMounted = true)
    by (vm_compute; reflexivity).
  assert (C : isClient st' = true) by (vm_compute; reflexivity).
  destruct (flag_and_listener_along_event pageMounted (Stop 0) st'
              pageMounted_reachable E) as (Hlen & Hiff & Hre).
  assert (L' : isListeningPopsate st' = false).
  { apply (proj2 (Hiff L)). exists 0. split; [reflexivity | exact Hh]. }
  exists st'. split; [exact pageMounted_reachable|]. split; [exact E|].
  split; [exact L|]. split; [exact Hh|]. split; [exact L'|]. split.
  - rewrite Hlen, L'. reflexivity.
  - exact (Hre C L' None).
Defined.

Lemma server_side_never_throws_witness :
  window pageServer = None /\
  (forall scope, listenPopstate scope pageServer = Returned pageServer) /\
  (exists st' b,
     useSearchParam "bar" identity defaultNavigate None pageServer
       = Returned (length (bindings pageServer), st') /\
     bindings st' = bindings pageServer ++ [b] /\ isWatching b = false /\
     window st' = None /\ liveListeners st' = [] /\
     ticks st' = ticks pageServer) /\
  (exists c st',
     bindings pageServer !! 0 = Some (Scalar c) /\
     useSearchParam_set 0 (Some "x") pageServer = Returned st' /\
     is_Some (useSearchParam_get 0 st') /\
     window st' = None /\ ticks st' = ticks pageServer).
Proof.
  assert (W : window pageServer = None) by (vm_compute; reflexivity).
  destruct (server_side_never_throws pageServer W)
    as (Hlisten & Huse & _ & Hset & _).
  split; [exact W|]. split; [exact Hlisten|]. split.
  - destruct (Huse "bar" identity defaultNavigate None)
      as (st' & b & E & Hbs & Hw & _ & Hwin & Hls & _ & _ & Ht).
    exists st', b. split; [exact E|]. split; [exact Hbs|].
    split; [exact Hw|]. split; [exact Hwin|]. split; [exact Hls|exact Ht].
  - set (c := {| name := "foo"; serializer := identity;
                 navigate := defaultNavigate;
                 writableValue := @None string;
                 readableValue := @None string;
                 watching := false; triggered := 0 |}).
    assert (Hb : bindings pageServer !! 0 = Some (Scalar c))
      by (vm_compute; reflexivity).
    destruct (Hset 0 c (Some "x") Hb) as (st' & E & Hget & Hwin & Ht & _).
    exists c, st'. split; [exact Hb|]. split; [exact E|].
    split; [exact Hget|]. split; [exact Hwin|exact Ht].
Defined.

(** * Further properties of the module *)

(** ** [isEqualArrays] *)

(** [isEqualArrays] decides equality of the two lists: it answers [true]
    exactly when they have the same items in the same order, [false] as soon
    as the lengths differ, and the order of its arguments does not matter. *)
Theorem isEqualArrays_decides (a b : list string) :
  (isEqualArrays a b = true <-> a = b) /\
  (length a <> length b -> isEqualArrays a b = false) /\
  isEqualArrays a b = isEqualArrays b a.
Proof.
  split; [apply isEqualArrays_true|]. split.
  - intros Hlen. apply isEqualArrays_false. intros ->. by apply Hlen.
  - destruct (isEqualArrays a b) eqn:E.
    + apply isEqualArrays_true in E as ->. symmetry.
      by apply isEqualArrays_true.
    + symmetry. apply isEqualArrays_false. intros ->.
      apply isEqualArrays_false in E. by apply E.
Qed.

Lemma isEqualArrays_decides_witness :
  isEqualArrays ["a"; "b"] ["a"; "b"] = true /\
  (length ["a"; "b"] <> length ["a"] /\ isEqualArrays ["a"; "b"] ["a"] = false) /\
  isEqualArrays ["a"; "b"] ["b"; "a"] = isEqualArrays ["b"; "a"] ["a"; "b"].
Proof.
  destruct (isEqualArrays_decides ["a"; "b"] ["a"; "b"]) as (Hiff & _ & _).
  destruct (isEqualArrays_decides ["a"; "b"] ["a"]) as (_ & Hlen & _).
  destruct (isEqualArrays_decides ["a"; "b"] ["b"; "a"]) as (_ & _ & Hsym).
  split; [apply Hiff; reflexivity|]. split; [|exact Hsym].
  assert (Hne : length ["a"; "b"] <> length ["a"]) by (simpl; lia).
  split; [exact Hne | exact (Hlen Hne)].
Defined.

(** ** What a trigger does to one live binding *)

Section Trigger.

Context {T : Type}.
Implicit Types (b : Binding (T := T)) (st : State (T := T)).

Lemma onSearchParams_scalar p (c : Closure (option string) (option string) T) :
  watching c = true ->
  exists d,
    onSearchParams p (Scalar c) = Scalar d /\
    name d = name c /\ watching d = true /\
    writableValue d = URLSearchParams.get (name c) p /\
    (URLSearchParams.get (name c) p <> writableValue c ->
       readableValue d = read (serializer c) (URLSearchParams.get (name c) p) /\
       triggered d = S (triggered c)) /\
    (URLSearchParams.get (name c) p = writableValue c -> d = c).
Proof.
  intros W. simpl. rewrite W. simpl.
  destruct (strictEq (URLSearchParams.get (name c) p) (writableValue c)) eqn:E.
  - apply strictEq_true in E. exists c. by repeat split.
  - apply strictEq_false in E. eexists. split; [reflexivity|]. simpl.
    by repeat split.
Qed.

Lemma onSearchParams_array p (c : Closure string (list string) (list T)) :
  watching c = true ->
  exists d,
    onSearchParams p (Array c) = Array d /\
    name d = name c /\ watching d = true /\
    writableValue d = URLSearchParams.getAll (name c) p /\
    (URLSearchParams.getAll (name c) p <> writableValue c ->
       readableValue d =
         map (read (serializer c)) (URLSearchParams.getAll (name c) p) /\
       triggered d = S (triggered c)) /\
    (URLSearchParams.getAll (name c) p = writableValue c -> d = c).
Proof.
  intros W. simpl. rewrite W. simpl.
  destruct (isEqualArrays (URLSearchParams.getAll (name c) p) (writableValue c))
    eqn:E.
  - apply isEqualArrays_true in E. exists c. by repeat split.
  - apply isEqualArrays_false in E. eexists. split; [reflexivity|]. simpl.
    by repeat split.
Qed.

End Trigger.

(** ** Refs on the same name *)

Section SameName.

Context {T : Type}.
Implicit Types (b : Binding (T := T)) (st : State (T := T)).

(** A write through a scalar ref that passes the guard reaches every other
    scalar ref of the same name whose watcher is live, within the same call:
    that ref's raw cache becomes the serialized value; where this differs
    from what it cached, its typed cache is re-read through its own
    serializer and its observers are notified once; where it does not
    differ, the ref is left as it was. *)
Theorem same_name_refs_converge st i j c c' v :
  i <> j ->
  bindings st !! i = Some (Scalar c) ->
  bindings st !! j = Some (Scalar c') ->
  name c' = name c -> watching c' = true ->
  strictEq (write (serializer c) v) (writableValue c) = false ->
  exists st' d,
    useSearchParam_set i v st = Returned st' /\
    bindings st' !! j = Some (Scalar d) /\
    URLSearchParams.get (name c) (searchParams st') = write (serializer c) v /\
    writableValue d = write (serializer c) v /\
    (writableValue c' <> write (serializer c) v ->
       useSearchParam_get j st'
         = Some (read (serializer c') (write (serializer c) v)) /\
       triggered d = S (triggered c')) /\
    (writableValue c' = write (serializer c) v -> d = c').
Proof.
  intros Hij Hi Hj Hn W E.
  destruct (useSearchParam_set_changed st i c v Hi E)
    as (st' & Eset & Hp & Hbs & _).
  assert (URLSearchParams.get (name c) (searchParams st')
          = write (serializer c) v) as Hget.
  { rewrite Hp. destruct (write (serializer c) v).
    - apply usp_get_set_eq.
    - apply usp_get_delete_eq. }
  destruct (onSearchParams_scalar (searchParams st') c' W)
    as (d & Ed & _ & _ & Hraw & Hnew & Hsame).
  rewrite Hn, Hget in Hraw, Hnew, Hsame.
  assert (bindings st' !! j = Some (Scalar d)) as Hj'.
  { rewrite Hbs, list_lookup_fmap, list_lookup_insert_ne, Hj by done.
    change (Some (onSearchParams (searchParams st') (Scalar c'))
            = Some (Scalar d)).
    by rewrite Ed. }
  exists st', d. do 4 (split; [done|]). split.
  - intros Hne. destruct (Hnew (not_eq_sym Hne)) as [Hr Ht]. split; [|done].
    unfold useSearchParam_get. by rewrite Hj', Hr.
  - intros Heq. by apply Hsame.
Qed.

(** The same for array refs: the other ref caches the serialized list and,
    where that is new to it, maps its own [read] over it. *)
Theorem same_name_array_refs_converge st i j c c' vs :
  i <> j ->
  bindings st !! i = Some (Array c) ->
  bindings st !! j = Some (Array c') ->
  name c' = name c -> watching c' = true ->
  isEqualArrays (map (write (serializer c)) vs) (writableValue c) = false ->
  exists st' d,
    useSearchParamArray_set i vs st = Returned st' /\
    bindings st' !! j = Some (Array d) /\
    URLSearchParams.getAll (name c) (searchParams st')
      = map (write (serializer c)) vs /\
    writableValue d = map (write (serializer c)) vs /\
    (writableValue c' <> map (write (serializer c)) vs ->
       useSearchParamArray_get j st'
         = Some (map (read (serializer c')) (map (write (serializer c)) vs)) /\
       triggered d = S (triggered c')) /\
    (writableValue c' = map (write (serializer c)) vs -> d = c').
Proof.
  intros Hij Hi Hj Hn W E.
  destruct (useSearchParamArray_set_changed st i c vs Hi E)
    as (st' & Eset & Hp & Hbs & _).
  assert (URLSearchParams.getAll (name c) (searchParams st')
          = map (write (serializer c)) vs) as Hget
    by (rewrite Hp; apply usp_getAll_replaceAll_eq).
  destruct (onSearchParams_array (searchParams st') c' W)
    as (d & Ed & _ & _ & Hraw & Hnew & Hsame).
  rewrite Hn, Hget in Hraw, Hnew, Hsame.
  assert (bindings st' !! j = Some (Array d)) as Hj'.
  { rewrite Hbs, list_lookup_fmap, list_lookup_insert_ne, Hj by done.
    change (Some (onSearchParams (searchParams st') (Array c'))
            = Some (Array d)).
    by rewrite Ed. }
  exists st', d. do 4 (split; [done|]). split.
  - intros Hne. destruct (Hnew (not_eq_sym Hne)) as [Hr Ht]. split; [|done].
    unfold useSearchParamArray_get. by rewrite Hj', Hr.
  - intros Heq. by apply Hsame.
Qed.

(** A write that passes the guard notifies the observers of its own ref
    exactly once (the ref's own watcher finds nothing new afterwards),
    leaves exactly the serialized value(s) under the name, whatever number
    of pairs of that name there was before, and, on the client, queues
    exactly one [navigate] call. *)
Theorem effective_write_notifies_once st ref :
  (forall c v,
     bindings st !! ref = Some (Scalar c) ->
     strictEq (write (serializer c) v) (writableValue c) = false ->
     exists st',
       useSearchParam_set ref v st = Returned st' /\
       bindings st' !! ref
         = Some (Scalar (assign c v (write (serializer c) v))) /\
       URLSearchParams.getAll (name c) (searchParams st')
         = match write (serializer c) v with
           | Some s => [s]
           | None => []
           end /\
       ticks st' = if isClient st then ticks st ++ [ref] else ticks st) /\
  (forall c vs,
     bindings st !! ref = Some (Array c) ->
     isEqualArrays (map (write (serializer c)) vs) (writableValue c) = false ->
     exists st',
       useSearchParamArray_set ref vs st = Returned st' /\
       bindings st' !! ref
         = Some (Array (assign c vs (map (write (serializer c)) vs))) /\
       URLSearchParams.getAll (name c) (searchParams st')
         = map (write (serializer c)) vs /\
       ticks st' = if isClient st then ticks st ++ [ref] else ticks st).
Proof.
  split.
  - intros c v Hb E.
    destruct (useSearchParam_set_changed st ref c v Hb E)
      as (st' & Eset & Hp & Hbs & Ht & _).
    exists st'. split; [done|]. split; [|split; [|done]].
    + rewrite Hbs, list_lookup_fmap, list_lookup_insert_eq
        by (by eapply lookup_lt_Some).
      simpl. f_equal. rewrite Hp. apply onSearchParams_own_scalar.
    + rewrite Hp. destruct (write (serializer c) v).
      * apply usp_getAll_set_eq.
      * apply usp_getAll_delete_eq.
  - intros c vs Hb E.
    destruct (useSearchParamArray_set_changed st ref c vs Hb E)
      as (st' & Eset & Hp & Hbs & Ht & _).
    exists st'. split; [done|]. split; [|split; [|done]].
    + rewrite Hbs, list_lookup_fmap, list_lookup_insert_eq
        by (by eapply lookup_lt_Some).
      simpl. f_equal. rewrite Hp. apply onSearchParams_own_array.
    + rewrite Hp. apply usp_getAll_replaceAll_eq.
Qed.

End SameName.

(** ** Navigation events and the deferred navigate calls *)

Section Navigation.

Context {T : Type}.
Implicit Types (b : Binding (T := T)) (st : State (T := T)).

(** With the listener installed there is one listener, and a navigation
    event is one assignment of a fresh object followed by one trigger. *)
Lemma popstate_listening st loc :
  wellFormed st -> isListeningPopsate st = true ->
  exists w,
    window st = Some w /\
    popstate loc st
    = Returned
        (triggerRef
           (assignNew loc
              (setWindow
                 {| listeners := listeners w;
                    history := {| search := loc;
                                  replaced := replaced (history w) |} |}
                 st))).
Proof.
  unfold wellFormed, popstate. intros Hwf L.
  destruct (window st) as [w|]; rewrite L in Hwf.
  - destruct Hwf as (l & Hl & _). exists w. split; [done|]. by rewrite Hl.
  - by destruct Hwf.
Qed.

(** While the listener is installed, a navigation event puts the new
    query into the shared state and refreshes every ref whose watcher is
    live: its raw cache becomes the value(s) of its name in the new query
    and, where that differs from what it cached, its typed cache is re-read
    and its observers are notified once; refs without a live watcher stay
    as they were, and no navigate call is queued. *)
Theorem popstate_refreshes_refs st loc :
  reachable st -> isListeningPopsate st = true ->
  exists st',
    popstate loc st = Returned st' /\
    searchParams st' = loc /\ ticks st' = ticks st /\
    (forall i c,
       bindings st !! i = Some (Scalar c) -> watching c = true ->
       exists d,
         bindings st' !! i = Some (Scalar d) /\
         writableValue d = URLSearchParams.get (name c) loc /\
         (URLSearchParams.get (name c) loc <> writableValue c ->
            useSearchParam_get i st'
              = Some (read (serializer c) (URLSearchParams.get (name c) loc)) /\
            triggered d = S (triggered c)) /\
         (URLSearchParams.get (name c) loc = writableValue c -> d = c)) /\
    (forall i c,
       bindings st !! i = Some (Array c) -> watching c = true ->
       exists d,
         bindings st' !! i = Some (Array d) /\
         writableValue d = URLSearchParams.getAll (name c) loc /\
         (URLSearchParams.getAll (name c) loc <> writableValue c ->
            useSearchParamArray_get i st'
              = Some (map (read (serializer c))
                        (URLSearchParams.getAll (name c) loc)) /\
            triggered d = S (triggered c)) /\
         (URLSearchParams.getAll (name c) loc = writableValue c -> d = c)) /\
    (forall i b,
       bindings st !! i = Some b -> isWatching b = false ->
       bindings st' !! i = Some b).
Proof.
  intros Hr L. apply reachable_wellFormed in Hr.
  destruct (popstate_listening st loc Hr L) as (w & W & ->).
  eexists. split; [reflexivity|]. split; [reflexivity|].
  split; [reflexivity|]. split; [|split].
  - intros i c Hi Hw.
    destruct (onSearchParams_scalar loc c Hw)
      as (d & Ed & _ & _ & Hraw & Hnew & Hsame).
    assert (bindings (triggerRef (assignNew loc
              (setWindow {| listeners := listeners w;
                            history := {| search := loc;
                                          replaced := replaced (history w) |} |}
                 st))) !! i = Some (Scalar d)) as Hi'.
    { rewrite triggerRef_lookup.
      change (onSearchParams loc <$> bindings st !! i = Some (Scalar d)).
      rewrite Hi.
      change (Some (onSearchParams loc (Scalar c)) = Some (Scalar d)).
      by rewrite Ed. }
    exists d. do 2 (split; [done|]). split; [|done].
    intros Hne. destruct (Hnew Hne) as [Hread Ht]. split; [|done].
    unfold useSearchParam_get. by rewrite Hi', Hread.
  - intros i c Hi Hw.
    destruct (onSearchParams_array loc c Hw)
      as (d & Ed & _ & _ & Hraw & Hnew & Hsame).
    assert (bindings (triggerRef (assignNew loc
              (setWindow {| listeners := listeners w;
                            history := {| search := loc;
                                          replaced := replaced (history w) |} |}
                 st))) !! i = Some (Array d)) as Hi'.
    { rewrite triggerRef_lookup.
      change (onSearchParams loc <$> bindings st !! i = Some (Array d)).
      rewrite Hi.
      change (Some (onSearchParams loc (Array c)) = Some (Array d)).
      by rewrite Ed. }
    exists d. do 2 (split; [done|]). split; [|done].
    intros Hne. destruct (Hnew Hne) as [Hread Ht]. split; [|done].
    unfold useSearchParamArray_get. by rewrite Hi', Hread.
  - intros i b Hi Hw. rewrite triggerRef_lookup.
    change (onSearchParams loc <$> bindings st !! i = Some b).
    rewrite Hi.
    change (Some (onSearchParams loc b) = Some b).
    by rewrite onSearchParams_unwatched.
Qed.

(** On a client whose listener has been torn down, a navigation event
    changes the location and nothing else: the shared state keeps its
    object and its content, and no ref is refreshed. *)
Theorem popstate_unheard_without_listener st loc w :
  reachable st -> window st = Some w -> isListeningPopsate st = false ->
  exists st',
    popstate loc st = Returned st' /\
    searchParams st' = searchParams st /\ objectId st' = objectId st /\
    bindings st' = bindings st /\ ticks st' = ticks st /\
    isListeningPopsate st' = false.
Proof.
  intros Hr W L. apply reachable_wellFormed in Hr.
  unfold wellFormed in Hr. rewrite W, L in Hr. destruct Hr as [Hl _].
  unfold popstate. rewrite W, Hl. simpl. eexists. split; [reflexivity|].
  by repeat split.
Qed.

(** The queued callbacks, when all of them use [defaultNavigate]: each one
    reads the shared state when it runs, so each one replaces the history
    entry with the same, latest query. *)
Lemma runTicks_default st (ts : list nat) h :
  (forall ref, ref ∈ ts ->
     exists b, bindings st !! ref = Some b /\ navigateOf b = defaultNavigate) ->
  search h = searchParams st ->
  foldl (runTick st) h ts
  = {| search := searchParams st;
       replaced := replaced h ++ replicate (length ts) (searchParams st) |}.
Proof.
  revert h. induction ts as [|t ts IH]; intros h Hall Hs; simpl.
  - rewrite app_nil_r. destruct h as [s r]. simpl in *. by subst.
  - destruct (Hall t) as (b & Hb & Hnav); [by left|].
    assert (runTick st h t = defaultNavigate (searchParams st) h) as ->.
    { unfold runTick. rewrite Hb. destruct b as [c|c]; simpl in Hnav;
        by rewrite Hnav. }
    rewrite IH; [|intros ref Hin; apply Hall; by right|done].
    simpl. by rewrite <- app_assoc.
Qed.

(** On the client, the next tick runs one [replaceState] per queued write,
    every one of them with the query the shared state holds at that moment:
    the location ends on that query, the queue is empty, the shared state
    and the refs are untouched, and a second tick does nothing. *)
Theorem flush_replaces_history_with_latest st w :
  window st = Some w -> ticks st <> [] ->
  (forall ref, ref ∈ ticks st ->
     exists b, bindings st !! ref = Some b /\ navigateOf b = defaultNavigate) ->
  exists st',
    flush st = Returned st' /\
    window st'
    = Some {| listeners := listeners w;
              history :=
                {| search := searchParams st;
                   replaced := replaced (history w) ++
                               replicate (length (ticks st)) (searchParams st) |} |} /\
    ticks st' = [] /\ searchParams st' = searchParams st /\
    bindings st' = bindings st /\
    flush st' = Returned st'.
Proof.
  intros W Hne Hall. unfold flush at 1. rewrite W.
  destruct (ticks st) as [|t ts] eqn:Ht; [done|].
  eexists. split; [reflexivity|]. simpl. split; [|by repeat split].
  do 2 f_equal.
  destruct (Hall t) as (b & Hb & Hnav); [by left|].
  assert (runTick st (history w) t
          = defaultNavigate (searchParams st) (history w)) as ->.
  { unfold runTick. rewrite Hb. destruct b as [c|c]; simpl in Hnav;
      by rewrite Hnav. }
  rewrite runTicks_default; [|intros ref Hin; apply Hall; by right|done].
  simpl. by rewrite <- app_assoc.
Qed.

End Navigation.

(** ** Scopes, refs and runs *)

Section Lifetime.

Context {T : Type}.
Implicit Types (b : Binding (T := T)) (st : State (T := T)).
Implicit Types (bs : list (Binding (T := T))).

Lemma cleanups_threw (cs : list Cleanup) :
  foldl runCleanup (Threw (A := State (T := T))) cs = Threw.
Proof. induction cs; simpl; [done|auto]. Qed.

Lemma cleanups_bindings cs st st' :
  foldl runCleanup (Returned st) cs = Returned st' ->
  bindings st' = stopWatchers cs (bindings st).
Proof.
  unfold stopWatchers. revert st.
  induction cs as [|[l|r] cs IH]; intros st; simpl.
  - by intros [= <-].
  - destruct (window st) as [w|].
    + intros E. by rewrite (IH _ E).
    + by rewrite cleanups_threw.
  - intros E. by rewrite (IH _ E).
Qed.

Lemma unwatch_unwatch b : unwatch (unwatch b) = unwatch b.
Proof. by destruct b. Qed.

Lemma stopWatchers_lookup cs bs r :
  stopWatchers cs bs !! r
  = (if decide (r ∈ watchers cs) then unwatch else id) <$> bs !! r.
Proof.
  unfold stopWatchers. generalize (watchers cs) as rs. clear cs.
  intros rs. revert bs. induction rs as [|x rs IH]; intros bs.
  - rewrite decide_False by apply not_elem_of_nil. simpl.
    by destruct (bs !! r).
  - change (foldl (fun bs r => alter unwatch r bs) (alter unwatch x bs) rs !! r
            = (if decide (r ∈ x :: rs) then unwatch else id) <$> bs !! r).
    rewrite IH. destruct (decide (r = x)) as [->|Hne].
    + rewrite list_lookup_alter_eq, (decide_True (P := x ∈ x :: rs))
        by (by left).
      destruct (bs !! x) as [b|]; simpl; [|done].
      destruct (decide (x ∈ rs)); simpl; by rewrite ?unwatch_unwatch.
    + rewrite list_lookup_alter_ne by done.
      destruct (decide (r ∈ rs)) as [Hin|Hnin].
      * rewrite (decide_True (P := r ∈ x :: rs)) by (by right). done.
      * rewrite (decide_False (P := r ∈ x :: rs)); [done|].
        intros [?|?]%elem_of_cons; done.
Qed.

(** Stopping a running scope, in any state the module can reach, returns;
    the refs whose watcher belonged to the scope lose it and from then on
    ignore every trigger, all other refs and the shared state are left
    alone, and stopping the scope once more does nothing. *)
Theorem stop_releases_watchers st s sc :
  reachable st -> scopes st !! s = Some sc -> active sc = true ->
  exists st',
    stop s st = Returned st' /\ stop s st' = Returned st' /\
    searchParams st' = searchParams st /\ ticks st' = ticks st /\
    (forall r b,
       bindings st !! r = Some b ->
       (r ∈ watchers (cleanups sc) -> bindings st' !! r = Some (unwatch b)) /\
       (r ∉ watchers (cleanups sc) -> bindings st' !! r = Some b)) /\
    (forall r b p,
       r ∈ watchers (cleanups sc) -> bindings st' !! r = Some b ->
       onSearchParams p b = b).
Proof.
  intros Hr Hs Ha. apply reachable_wellFormed in Hr.
  destruct (stop_effect st s sc Hr Hs) as (st' & E & _ & Ht & Hp & _).
  assert (bindings st' = stopWatchers (cleanups sc) (bindings st)) as Hbs.
  { unfold stop in E. rewrite Hs, Ha in E. by apply cleanups_bindings in E. }
  assert (scopes st' !! s = Some {| active := false; cleanups := [] |}) as Hs'.
  { unfold stop in E. rewrite Hs, Ha in E.
    match type of E with
    | foldl runCleanup (Returned ?st0) _ = _ =>
        destruct (cleanups_return (cleanups sc) st0) as (st2 & E2 & Hsc & _)
    end.
    - intros Hu W. simpl in W. unfold wellFormed in Hr. rewrite W in Hr.
      destruct Hr as (_ & _ & Hnil).
      destruct (hooksOf_stopped s sc (scopes st) Hs Ha)
        as (pre & post & Hh & _).
      rewrite Hh in Hnil. apply app_eq_nil in Hnil as [_ Hnil].
      by apply app_eq_nil in Hnil as [? _].
    - rewrite E in E2. injection E2 as <-. rewrite Hsc. simpl.
      apply list_lookup_insert_eq. by eapply lookup_lt_Some. }
  exists st'. split; [done|]. split.
  { unfold stop. by rewrite Hs'. }
  do 2 (split; [done|]). split.
  - intros r b Hb. rewrite Hbs, stopWatchers_lookup, Hb. split; intros Hin.
    + by rewrite decide_True.
    + by rewrite decide_False.
  - intros r b p Hin Hb. rewrite Hbs, stopWatchers_lookup in Hb.
    rewrite decide_True in Hb by done.
    destruct (bindings st !! r) as [b0|]; [|done]. injection Hb as <-.
    apply onSearchParams_unwatched. by destruct b0.
Qed.

Lemma sameRef_refl b : sameRef b b.
Proof. by destruct b. Qed.

Lemma sameRef_trans b1 b2 b3 : sameRef b1 b2 -> sameRef b2 b3 -> sameRef b1 b3.
Proof.
  destruct b1, b2, b3; simpl; try done;
    intros (-> & -> & ->) (-> & -> & ->); done.
Qed.

Lemma sameRef_onSearchParams p b : sameRef b (onSearchParams p b).
Proof.
  destruct b as [c|c]; simpl; destruct (watching c); simpl; try done.
  - by destruct (strictEq _ _).
  - by destruct (isEqualArrays _ _).
Qed.

Lemma sameRef_unwatch b : sameRef b (unwatch b).
Proof. by destruct b. Qed.

Lemma isWatching_unwatch b : isWatching (unwatch b) = false.
Proof. by destruct b. Qed.

Lemma keepsRefs_refl bs : keepsRefs bs bs.
Proof.
  split; [done|]. intros i b Hi. exists b. split; [done|].
  split; [apply sameRef_refl|done].
Qed.

Lemma keepsRefs_trans bs1 bs2 bs3 :
  keepsRefs bs1 bs2 -> keepsRefs bs2 bs3 -> keepsRefs bs1 bs3.
Proof.
  intros [Hl1 H1] [Hl2 H2]. split; [congruence|]. intros i b Hi.
  destruct (H1 i b Hi) as (b2 & Hi2 & Hs2 & Hw2).
  destruct (H2 i b2 Hi2) as (b3 & Hi3 & Hs3 & Hw3).
  exists b3. split; [done|]. split; [by eapply sameRef_trans|auto].
Qed.

Lemma keepsRefs_triggered p bs : keepsRefs bs (map (onSearchParams p) bs).
Proof.
  split; [apply length_map|]. intros i b Hi.
  exists (onSearchParams p b). rewrite list_lookup_fmap, Hi.
  split; [done|]. split; [apply sameRef_onSearchParams|].
  by rewrite onSearchParams_watching.
Qed.

Lemma keepsRefs_insert bs ref b b' :
  bs !! ref = Some b -> sameRef b b' ->
  (isWatching b' = true -> isWatching b = true) ->
  keepsRefs bs (<[ref := b']> bs).
Proof.
  intros Href Hs Hw. split; [apply length_insert|]. intros i b0 Hi.
  destruct (decide (i = ref)) as [->|Hne].
  - exists b'. rewrite list_lookup_insert_eq by (by eapply lookup_lt_Some).
    assert (b0 = b) as -> by congruence. done.
  - exists b0. rewrite list_lookup_insert_ne by done.
    split; [done|]. split; [apply sameRef_refl|done].
Qed.

Lemma keepsRefs_stopWatchers cs bs : keepsRefs bs (stopWatchers cs bs).
Proof.
  split.
  - unfold stopWatchers. generalize (watchers cs) as rs. intros rs.
    revert bs. induction rs as [|x rs IH]; intros bs; simpl; [done|].
    by rewrite IH, length_alter.
  - intros i b Hi. rewrite stopWatchers_lookup, Hi. simpl.
    destruct (decide (i ∈ watchers cs)).
    + exists (unwatch b). split; [done|]. split; [apply sameRef_unwatch|].
      by rewrite isWatching_unwatch.
    + exists b. split; [done|]. split; [apply sameRef_refl|done].
Qed.

Lemma dispatch_keepsRefs (ls : list nat) st st' :
  foldl (fun o _ => bind o onPopstate) (Returned st) ls = Returned st' ->
  keepsRefs (bindings st) (bindings st').
Proof.
  revert st. induction ls as [|l ls IH]; intros st; simpl.
  - intros [= <-]. apply keepsRefs_refl.
  - unfold onPopstate at 2. destruct (window st) as [w|].
    + intros E. apply IH in E. simpl in E.
      eapply keepsRefs_trans; [|exact E]. apply keepsRefs_triggered.
    + intros E. exfalso. revert E. clear. induction ls; simpl; [done|auto].
Qed.

(** The two factories return in every state. *)
Lemma useSearchParam_effect n ser nav scope st :
  exists st',
    useSearchParam n ser nav scope st = Returned (length (bindings st), st') /\
    bindings st' =
      bindings st ++
      [Scalar {| name := n; serializer := ser; navigate := nav;
                 writableValue := URLSearchParams.get n (searchParams st);
                 readableValue :=
                   read ser (URLSearchParams.get n (searchParams st));
                 watching := isClient st; triggered := 0 |}] /\
    searchParams st' = searchParams st /\ detached st' = detached st /\
    ticks st' = ticks st /\
    isListeningPopsate st' = isClient st || isListeningPopsate st.
Proof.
  unfold useSearchParam.
  match goal with |- context [listenPopstate scope ?x] => set (st1 := x) end.
  destruct (listenPopstate_returns scope st1)
    as (st2 & -> & Hb & Hp & Hd & Ht & Hc & Hnone & Hsame & Hon).
  destruct (watch_frame (length (bindings st)) scope
              (setBindings (bindings st ++ [Scalar
                 {| name := n; serializer := ser; navigate := nav;
                    writableValue := URLSearchParams.get n (searchParams st);
                    readableValue :=
                      read ser (URLSearchParams.get n (searchParams st));
                    watching := isClient st; triggered := 0 |}]) st))
    as (Hw1 & Hl1 & Hb1 & Hp1 & Hd1 & Ht1).
  fold st1 in Hw1, Hl1, Hb1, Hp1, Hd1, Ht1. simpl in *.
  exists st2. split; [done|].
  rewrite Hb, Hp, Hd, Ht, Hb1, Hp1, Hd1, Ht1. do 4 (split; [done|]).
  assert (isClient st1 = isClient st) as Hc1
    by (unfold isClient; by rewrite Hw1).
  destruct (isClient st) eqn:C; simpl.
  - apply Hon. by rewrite Hc1.
  - rewrite Hnone; [done|]. apply isClient_window. by rewrite Hc1.
Qed.

Lemma useSearchParamArray_effect n ser nav scope st :
  exists st',
    useSearchParamArray n ser nav scope st
      = Returned (length (bindings st), st') /\
    bindings st' =
      bindings st ++
      [Array {| name := n; serializer := ser; navigate := nav;
                writableValue := URLSearchParams.getAll n (searchParams st);
                readableValue :=
                  map (read ser) (URLSearchParams.getAll n (searchParams st));
                watching := isClient st; triggered := 0 |}] /\
    searchParams st' = searchParams st /\ detached st' = detached st /\
    ticks st' = ticks st /\
    isListeningPopsate st' = isClient st || isListeningPopsate st.
Proof.
  unfold useSearchParamArray.
  match goal with |- context [listenPopstate scope ?x] => set (st1 := x) end.
  destruct (listenPopstate_returns scope st1)
    as (st2 & -> & Hb & Hp & Hd & Ht & Hc & Hnone & Hsame & Hon).
  destruct (watch_frame (length (bindings st)) scope
              (setBindings (bindings st ++ [Array
                 {| name := n; serializer := ser; navigate := nav;
                    writableValue :=
                      URLSearchParams.getAll n (searchParams st);
                    readableValue :=
                      map (read ser)
                        (URLSearchParams.getAll n (searchParams st));
                    watching := isClient st; triggered := 0 |}]) st))
    as (Hw1 & Hl1 & Hb1 & Hp1 & Hd1 & Ht1).
  fold st1 in Hw1, Hl1, Hb1, Hp1, Hd1, Ht1. simpl in *.
  exists st2. split; [done|].
  rewrite Hb, Hp, Hd, Ht, Hb1, Hp1, Hd1, Ht1. do 4 (split; [done|]).
  assert (isClient st1 = isClient st) as Hc1
    by (unfold isClient; by rewrite Hw1).
  destruct (isClient st) eqn:C; simpl.
  - apply Hon. by rewrite Hc1.
  - rewrite Hnone; [done|]. apply isClient_window. by rewrite Hc1.
Qed.

(** One event keeps the refs there are, or adds one ref at the end, whose
    watcher is live exactly on the client. *)
Lemma exec_shape st e st' :
  exec e st = Returned st' ->
  keepsRefs (bindings st) (bindings st') \/
  exists b0, bindings st' = bindings st ++ [b0] /\
             isWatching b0 = isClient st.
Proof.
  destruct e as [|n ser nav sc|n ser nav sc|ref v|ref v|loc| |s]; simpl.
  - intros [= <-]. left. apply keepsRefs_refl.
  - destruct (running sc st); [|done].
    destruct (useSearchParam_effect n ser nav sc st) as (st2 & -> & Hb & _).
    simpl. intros [= <-]. right. by eexists.
  - destruct (running sc st); [|done].
    destruct (useSearchParamArray_effect n ser nav sc st)
      as (st2 & -> & Hb & _).
    simpl. intros [= <-]. right. by eexists.
  - left. destruct (bindings st !! ref) as [[c|c]|] eqn:Hb;
      try (unfold useSearchParam_set in H; by rewrite Hb in H).
    destruct (strictEq (write (serializer c) v) (writableValue c)) eqn:E.
    { unfold useSearchParam_set in H. rewrite Hb, E in H.
      injection H as <-. apply keepsRefs_refl. }
    destruct (useSearchParam_set_changed st ref c v Hb E)
      as (st2 & E2 & _ & Hbs & _).
    rewrite E2 in H. injection H as <-. rewrite Hbs.
    eapply keepsRefs_trans; [|apply keepsRefs_triggered].
    by eapply keepsRefs_insert.
  - left. destruct (bindings st !! ref) as [[c|c]|] eqn:Hb;
      try (unfold useSearchParamArray_set in H; by rewrite Hb in H).
    destruct (isEqualArrays (map (write (serializer c)) v) (writableValue c))
      eqn:E.
    { unfold useSearchParamArray_set in H. rewrite Hb, E in H.
      injection H as <-. apply keepsRefs_refl. }
    destruct (useSearchParamArray_set_changed st ref c v Hb E)
      as (st2 & E2 & _ & Hbs & _).
    rewrite E2 in H. injection H as <-. rewrite Hbs.
    eapply keepsRefs_trans; [|apply keepsRefs_triggered].
    by eapply keepsRefs_insert.
  - left. unfold popstate in H. destruct (window st) as [w|]; [|done].
    by apply dispatch_keepsRefs in H.
  - left. unfold flush in H. destruct (ticks st).
    + injection H as <-. apply keepsRefs_refl.
    + destruct (window st); [|done]. injection H as <-.
      apply keepsRefs_refl.
  - left. unfold stop in H. destruct (scopes st !! s) as [sc|]; [|done].
    destruct (active sc).
    + apply cleanups_bindings in H. rewrite H. simpl.
      apply keepsRefs_stopWatchers.
    + injection H as <-. apply keepsRefs_refl.
Qed.

Lemma exec_keeps st e st' i b :
  exec e st = Returned st' -> bindings st !! i = Some b ->
  exists b', bindings st' !! i = Some b' /\ sameRef b b'.
Proof.
  intros E Hi. destruct (exec_shape st e st' E) as [[_ H]|(b0 & -> & _)].
  - destruct (H i b Hi) as (b' & ? & ? & _). eauto.
  - exists b. split; [by apply lookup_app_l_Some|apply sameRef_refl].
Qed.

(** A ref stays valid for good: whatever events follow, its index keeps
    denoting a record of the same kind, with the name, the serializer and
    the [navigate] function it was created with. *)
Theorem refs_stay_valid (es : list Event) st st' i b :
  run es st = Returned st' -> bindings st !! i = Some b ->
  exists b', bindings st' !! i = Some b' /\ sameRef b b'.
Proof.
  unfold run. revert st b. induction es as [|e es IH]; intros st b; simpl.
  - intros [= <-] Hi. exists b. split; [done|apply sameRef_refl].
  - destruct (exec e st) as [st1| |] eqn:E; simpl.
    + intros Hrun Hi.
      destruct (exec_keeps st e st1 i b E Hi) as (b1 & Hi1 & Hs1).
      destruct (IH st1 b1 Hrun Hi1) as (b' & Hi' & Hs').
      exists b'. split; [done|]. by eapply sameRef_trans.
    + intros H. exfalso. revert H. clear. induction es; simpl; [done|auto].
    + intros H. exfalso. revert H. clear. induction es; simpl; [done|auto].
Qed.

(** What one event does to the tick queue. *)
Lemma exec_ticks st e st' :
  wellFormed st -> exec e st = Returned st' ->
  ticks st' = ticks st \/ ticks st' = [] \/
  exists ref, is_Some (bindings st !! ref) /\ ticks st' = ticks st ++ [ref].
Proof.
  intros Hwf.
  destruct e as [|n ser nav sc|n ser nav sc|ref v|ref v|loc| |s]; simpl.
  - intros [= <-]. by left.
  - destruct (running sc st); [|done].
    destruct (useSearchParam_effect n ser nav sc st)
      as (st2 & -> & _ & _ & _ & Ht & _).
    simpl. intros [= <-]. by left.
  - destruct (running sc st); [|done].
    destruct (useSearchParamArray_effect n ser nav sc st)
      as (st2 & -> & _ & _ & _ & Ht & _).
    simpl. intros [= <-]. by left.
  - destruct (bindings st !! ref) as [[c|c]|] eqn:Hb;
      try (unfold useSearchParam_set; by rewrite Hb).
    destruct (strictEq (write (serializer c) v) (writableValue c)) eqn:E.
    { unfold useSearchParam_set. rewrite Hb, E. intros [= <-]. by left. }
    destruct (useSearchParam_set_changed st ref c v Hb E)
      as (st2 & -> & _ & _ & Ht & _).
    intros [= <-]. rewrite Ht. destruct (isClient st); [|by left].
    right. right. exists ref. by rewrite Hb.
  - destruct (bindings st !! ref) as [[c|c]|] eqn:Hb;
      try (unfold useSearchParamArray_set; by rewrite Hb).
    destruct (isEqualArrays (map (write (serializer c)) v) (writableValue c))
      eqn:E.
    { unfold useSearchParamArray_set. rewrite Hb, E. intros [= <-]. by left. }
    destruct (useSearchParamArray_set_changed st ref c v Hb E)
      as (st2 & -> & _ & _ & Ht & _).
    intros [= <-]. rewrite Ht. destruct (isClient st); [|by left].
    right. right. exists ref. by rewrite Hb.
  - unfold popstate. destruct (window st) as [w|] eqn:W; [|done].
    match goal with |- context [Returned ?x] => set (st1 := x) end.
    destruct (dispatch_returns (listeners w) st1 _ eq_refl)
      as (st2 & -> & _ & _ & _ & Ht & _).
    intros [= <-]. by left.
  - unfold flush. destruct (ticks st) eqn:Ht; [intros [= <-]; by left|].
    destruct (window st); [|done]. intros [= <-]. right. by left.
  - destruct (scopes st !! s) as [sc|] eqn:Hs;
      [|unfold stop; by rewrite Hs].
    destruct (stop_effect st s sc Hwf Hs) as (st2 & -> & _ & Ht & _).
    intros [= <-]. by left.
Qed.

(** No event throws from a well-formed state. *)
Lemma exec_not_threw st e : wellFormed st -> exec e st <> Threw.
Proof.
  intros Hwf.
  destruct e as [|n ser nav sc|n ser nav sc|ref v|ref v|loc| |s]; simpl.
  - done.
  - destruct (running sc st); [|done].
    by destruct (useSearchParam_effect n ser nav sc st) as (st2 & -> & _).
  - destruct (running sc st); [|done].
    by destruct (useSearchParamArray_effect n ser nav sc st)
      as (st2 & -> & _).
  - destruct (bindings st !! ref) as [[c|c]|] eqn:Hb;
      try (unfold useSearchParam_set; by rewrite Hb).
    by destruct (useSearchParam_set_returns st ref c v Hb) as (st2 & ->).
  - destruct (bindings st !! ref) as [[c|c]|] eqn:Hb;
      try (unfold useSearchParamArray_set; by rewrite Hb).
    by destruct (useSearchParamArray_set_returns st ref c v Hb)
      as (st2 & ->).
  - unfold popstate. destruct (window st) as [w|] eqn:W; [|done].
    match goal with |- context [Returned ?x] => set (st1 := x) end.
    by destruct (dispatch_returns (listeners w) st1 _ eq_refl)
      as (st2 & -> & _).
  - by destruct (flush_returns st Hwf) as (st2 & -> & _).
  - destruct (scopes st !! s) as [sc|] eqn:Hs;
      [|unfold stop; by rewrite Hs].
    by destruct (stop_effect st s sc Hwf Hs) as (st2 & -> & _).
Qed.

(** No run of the module throws, on the client or on the server: from any
    state the module can reach, every list of events either returns or
    stops at a call that cannot be made (an unknown ref or scope, a
    navigation event without a window). *)
Theorem run_never_throws (es : list Event) st :
  reachable st -> run es st <> Threw.
Proof.
  unfold run. revert st. induction es as [|e es IH]; intros st Hr; simpl.
  - done.
  - destruct (exec e st) as [st1| |] eqn:E; simpl.
    + apply IH. by eapply reachable_exec.
    + by destruct (exec_not_threw st e (reachable_wellFormed st Hr)).
    + clear. induction es; simpl; [done|auto].
Qed.

Lemma reachable_refs st :
  reachable st ->
  (isClient st = false ->
     forall i b, bindings st !! i = Some b -> isWatching b = false) /\
  (forall ref, ref ∈ ticks st -> is_Some (bindings st !! ref)).
Proof.
  induction 1 as [location|st e st' Hr [IHw IHt] E].
  - split.
    + intros _ i b Hi. simpl in Hi. by rewrite lookup_nil in Hi.
    + intros ref Hin. simpl in Hin. by apply not_elem_of_nil in Hin.
  - pose proof (reachable_wellFormed st Hr) as Hwf.
    destruct (exec_effect st e st' Hwf E) as (_ & Hc & _).
    assert (forall ref, is_Some (bindings st !! ref) ->
                        is_Some (bindings st' !! ref)) as Hvalid.
    { intros ref [b Hb].
      destruct (exec_keeps st e st' ref b E Hb) as (b' & Hb' & _). eauto. }
    split.
    + rewrite Hc. intros C i b' Hi'.
      destruct (exec_shape st e st' E) as [[Hlen Hk]|(b0 & Hbs & H0)].
      * destruct (bindings st !! i) as [b|] eqn:Hi.
        -- destruct (Hk i b Hi) as (b2 & Hi2 & _ & Hw).
           rewrite Hi' in Hi2. injection Hi2 as <-.
           destruct (isWatching b') eqn:W; [|done].
           rewrite <- (IHw C i b Hi). symmetry. by apply Hw.
        -- apply lookup_ge_None in Hi. apply lookup_lt_Some in Hi'. lia.
      * rewrite Hbs in Hi'. apply lookup_app_Some in Hi' as [Hi'|[_ Hi']].
        -- by eapply IHw.
        -- apply list_lookup_singleton_Some in Hi' as [_ <-]. congruence.
    + intros ref Hin.
      destruct (exec_ticks st e st' Hwf E) as [Ht|[Ht|(r & Hr' & Ht)]];
        rewrite Ht in Hin.
      * by apply Hvalid, IHt.
      * by apply not_elem_of_nil in Hin.
      * apply elem_of_app in Hin as [Hin|Hin].
        -- by apply Hvalid, IHt.
        -- apply elem_of_cons in Hin as [->|Hin]; [by apply Hvalid|].
           by apply not_elem_of_nil in Hin.
Qed.

(** What holds in every state the module can reach.  Without a window the
    flag is down, no navigate call is queued and no ref has a watcher (so
    refs on the same name do not follow one another there); every queued
    navigate call belongs to an existing ref; and every ref with a live
    watcher caches exactly what the shared state holds for its name. *)
Theorem reachable_invariants st :
  reachable st ->
  (isClient st = false ->
     isListeningPopsate st = false /\ ticks st = [] /\
     forall i b, bindings st !! i = Some b -> isWatching b = false) /\
  (forall ref, ref ∈ ticks st -> is_Some (bindings st !! ref)) /\
  (forall i b, bindings st !! i = Some b -> isWatching b = true ->
     coherent (searchParams st) b).
Proof.
  intros Hr. destruct (reachable_refs st Hr) as [Hw Ht].
  split; [|split; [exact Ht|]].
  - intros C. pose proof (reachable_wellFormed st Hr) as Hwf.
    unfold wellFormed in Hwf. apply isClient_window in C as W.
    rewrite W in Hwf. destruct Hwf as (L & Hticks & _).
    split; [exact L|]. split; [exact Hticks|]. by apply Hw.
  - intros i b Hi W. apply sameRaw_coherent.
    by apply (reachable_inStep st Hr i).
Qed.

(** The two factories return in every state, with the next free index as
    the new ref.  The ref reads the value(s) of its name in the shared
    state, passed through [read]; the refs there were, the shared state and
    the tick queue are left alone; afterwards the listener flag is set
    whenever there is a window. *)
Theorem factories_initialise_from_shared_state st n nav scope :
  (forall ser, exists st',
     useSearchParam n ser nav scope st
       = Returned (length (bindings st), st') /\
     useSearchParam_get (length (bindings st)) st'
       = Some (read ser (URLSearchParams.get n (searchParams st))) /\
     (forall i b, bindings st !! i = Some b -> bindings st' !! i = Some b) /\
     searchParams st' = searchParams st /\ objectId st' = objectId st /\
     ticks st' = ticks st /\
     isListeningPopsate st' = isClient st || isListeningPopsate st) /\
  (forall ser, exists st',
     useSearchParamArray n ser nav scope st
       = Returned (length (bindings st), st') /\
     useSearchParamArray_get (length (bindings st)) st'
       = Some (map (read ser) (URLSearchParams.getAll n (searchParams st))) /\
     (forall i b, bindings st !! i = Some b -> bindings st' !! i = Some b) /\
     searchParams st' = searchParams st /\ objectId st' = objectId st /\
     ticks st' = ticks st /\
     isListeningPopsate st' = isClient st || isListeningPopsate st).
Proof.
  split; intros ser.
  - destruct (useSearchParam_effect n ser nav scope st)
      as (st' & E & Hb & Hp & Hd & Ht & Hl).
    exists st'. split; [exact E|]. split.
    { unfold useSearchParam_get. rewrite Hb, list_lookup_middle; done. }
    split; [intros i b Hi; rewrite Hb; by apply lookup_app_l_Some|].
    split; [exact Hp|]. split; [unfold objectId; by rewrite Hd|].
    split; [exact Ht|exact Hl].
  - destruct (useSearchParamArray_effect n ser nav scope st)
      as (st' & E & Hb & Hp & Hd & Ht & Hl).
    exists st'. split; [exact E|]. split.
    { unfold useSearchParamArray_get. rewrite Hb, list_lookup_middle; done. }
    split; [intros i b Hi; rewrite Hb; by apply lookup_app_l_Some|].
    split; [exact Hp|]. split; [unfold objectId; by rewrite Hd|].
    split; [exact Ht|exact Hl].
Qed.

End Lifetime.

(** ** The further properties on concrete pages *)

Lemma pageTwins_reachable : reachable pageTwins.
Proof. apply settled_reachable. vm_compute. reflexivity. Qed.

Lemma pageUnmounted_reachable : reachable pageUnmounted.
Proof. apply settled_reachable. vm_compute. reflexivity. Qed.

Lemma pageServer_reachable : reachable pageServer.
Proof. apply settled_reachable. vm_compute. reflexivity. Qed.

Lemma same_name_refs_converge_witness :
  exists c c' st',
    0 <> 1 /\
    bindings pageTwins !! 0 = Some (Scalar c) /\
    bindings pageTwins !! 1 = Some (Scalar c') /\
    name c' = name c /\ watching c' = true /\
    strictEq (write (serializer c) "x") (writableValue c) = false /\
    useSearchParam_set 0 "x" pageTwins = Returned st' /\
    URLSearchParams.get "q" (searchParams st') = Some "x" /\
    useSearchParam_get 1 st' = Some "x".
Proof.
  pose (c := {| name := "q"; serializer := text;
                navigate := defaultNavigate; writableValue := @None string;
                readableValue := ""; watching := true; triggered := 0 |}).
  assert (Hne : 0 <> 1) by lia.
  assert (H0 : bindings pageTwins !! 0 = Some (Scalar c))
    by (vm_compute; reflexivity).
  assert (H1 : bindings pageTwins !! 1 = Some (Scalar c))
    by (vm_compute; reflexivity).
  assert (E : strictEq (write (serializer c) "x") (writableValue c) = false)
    by (vm_compute; reflexivity).
  destruct (same_name_refs_converge pageTwins 0 1 c c "x" Hne H0 H1
              eq_refl eq_refl E)
    as (st' & d & Eset & _ & Hget & _ & Hnew & _).
  exists c, c, st'. split; [exact Hne|]. split; [exact H0|].
  split; [exact H1|]. split; [reflexivity|]. split; [reflexivity|].
  split; [exact E|]. split; [exact Eset|]. split; [exact Hget|].
  apply Hnew. discriminate.
Defined.

Lemma same_name_array_refs_converge_witness :
  exists c c' st',
    2 <> 3 /\
    bindings pageTwins !! 2 = Some (Array c) /\
    bindings pageTwins !! 3 = Some (Array c') /\
    name c' = name c /\ watching c' = true /\
    isEqualArrays (map (write (serializer c)) ["a"; "b"]) (writableValue c)
      = false /\
    useSearchParamArray_set 2 ["a"; "b"] pageTwins = Returned st' /\
    URLSearchParams.getAll "tag" (searchParams st') = ["a"; "b"] /\
    useSearchParamArray_get 3 st' = Some ["a"; "b"].
Proof.
  pose (c := {| name := "tag"; serializer := identityItem;
                navigate := defaultNavigate; writableValue := ["z"];
                readableValue := ["z"]; watching := true; triggered := 0 |}).
  assert (Hne : 2 <> 3) by lia.
  assert (H2 : bindings pageTwins !! 2 = Some (Array c))
    by (vm_compute; reflexivity).
  assert (H3 : bindings pageTwins !! 3 = Some (Array c))
    by (vm_compute; reflexivity).
  assert (E : isEqualArrays (map (write (serializer c)) ["a"; "b"])
                (writableValue c) = false) by (vm_compute; reflexivity).
  destruct (same_name_array_refs_converge pageTwins 2 3 c c ["a"; "b"]
              Hne H2 H3 eq_refl eq_refl E)
    as (st' & d & Eset & _ & Hget & _ & Hnew & _).
  exists c, c, st'. split; [exact Hne|]. split; [exact H2|].
  split; [exact H3|]. split; [reflexivity|]. split; [reflexivity|].
  split; [exact E|]. split; [exact Eset|]. split; [exact Hget|].
  apply Hnew. discriminate.
Defined.

Lemma effective_write_notifies_once_witness :
  (exists c st',
     bindings pageTwins !! 0 = Some (Scalar c) /\
     strictEq (write (serializer c) "x") (writableValue c) = false /\
     useSearchParam_set 0 "x" pageTwins = Returned st' /\
     bindings st' !! 0 = Some (Scalar (assign c "x" (Some "x"))) /\
     URLSearchParams.getAll "q" (searchParams st') = ["x"] /\
     ticks st' = ticks pageTwins ++ [0]) /\
  (exists c st',
     bindings pageTwins !! 2 = Some (Array c) /\
     isEqualArrays (map (write (serializer c)) []) (writableValue c) = false /\
     useSearchParamArray_set 2 [] pageTwins = Returned st' /\
     bindings st' !! 2 = Some (Array (assign c [] [])) /\
     URLSearchParams.getAll "tag" (searchParams st') = [] /\
     ticks st' = ticks pageTwins ++ [2]).
Proof.
  assert (C : isClient pageTwins = true) by (vm_compute; reflexivity).
  split.
  - pose (c := {| name := "q"; serializer := text;
                  navigate := defaultNavigate;
                  writableValue := @None string;
                  readableValue := ""; watching := true; triggered := 0 |}).
    assert (H0 : bindings pageTwins !! 0 = Some (Scalar c))
      by (vm_compute; reflexivity).
    assert (E : strictEq (write (serializer c) "x") (writableValue c) = false)
      by (vm_compute; reflexivity).
    destruct (proj1 (effective_write_notifies_once pageTwins 0) c "x" H0 E)
      as (st' & Eset & Hb & Hall & Ht).
    rewrite C in Ht.
    exists c, st'. split; [exact H0|]. split; [exact E|].
    split; [exact Eset|]. split; [exact Hb|]. split; [exact Hall|exact Ht].
  - pose (c := {| name := "tag"; serializer := identityItem;
                  navigate := defaultNavigate; writableValue := ["z"];
                  readableValue := ["z"]; watching := true;
                  triggered := 0 |}).
    assert (H2 : bindings pageTwins !! 2 = Some (Array c))
      by (vm_compute; reflexivity).
    assert (E : isEqualArrays (map (write (serializer c)) [])
                  (writableValue c) = false) by (vm_compute; reflexivity).
    destruct (proj2 (effective_write_notifies_once pageTwins 2) c [] H2 E)
      as (st' & Eset & Hb & Hall & Ht).
    rewrite C in Ht.
    exists c, st'. split; [exact H2|]. split; [exact E|].
    split; [exact Eset|]. split; [exact Hb|]. split; [exact Hall|exact Ht].
Defined.

Lemma popstate_refreshes_refs_witness :
  exists c st',
    reachable pageTwins /\ isListeningPopsate pageTwins = true /\
    bindings pageTwins !! 0 = Some (Scalar c) /\ watching c = true /\
    popstate [("q", "new")] pageTwins = Returned st' /\
    searchParams st' = [("q", "new")] /\
    useSearchParam_get 0 st' = Some "new".
Proof.
  pose (c := {| name := "q"; serializer := text;
                navigate := defaultNavigate; writableValue := @None string;
                readableValue := ""; watching := true; triggered := 0 |}).
  assert (L : isListeningPopsate pageTwins = true)
    by (vm_compute; reflexivity).
  assert (H0 : bindings pageTwins !! 0 = Some (Scalar c))
    by (vm_compute; reflexivity).
  destruct (popstate_refreshes_refs pageTwins [("q", "new")]
              pageTwins_reachable L)
    as (st' & E & Hp & _ & Hscalar & _).
  destruct (Hscalar 0 c H0 eq_refl) as (d & _ & _ & Hnew & _).
  exists c, st'. split; [exact pageTwins_reachable|]. split; [exact L|].
  split; [exact H0|]. split; [reflexivity|]. split; [exact E|].
  split; [exact Hp|]. apply Hnew. discriminate.
Defined.

Lemma popstate_unheard_without_listener_witness :
  exists w st',
    reachable pageUnmounted /\ window pageUnmounted = Some w /\
    isListeningPopsate pageUnmounted = false /\
    popstate [("a", "1")] pageUnmounted = Returned st' /\
    searchParams st' = searchParams pageUnmounted /\
    bindings st' = bindings pageUnmounted.
Proof.
  pose (w := {| listeners := [];
                history := {| search := []; replaced := [] |} |}).
  assert (W : window pageUnmounted = Some w) by (vm_compute; reflexivity).
  assert (L : isListeningPopsate pageUnmounted = false)
    by (vm_compute; reflexivity).
  destruct (popstate_unheard_without_listener pageUnmounted [("a", "1")] w
              pageUnmounted_reachable W L)
    as (st' & E & Hp & _ & Hb & _).
  exists w, st'. split; [exact pageUnmounted_reachable|]. split; [exact W|].
  split; [exact L|]. split; [exact E|]. split; [exact Hp|exact Hb].
Defined.

Lemma flush_replaces_history_with_latest_witness :
  exists w st',
    window pageTags = Some w /\ ticks pageTags <> [] /\
    (forall ref, ref ∈ ticks pageTags ->
       exists b, bindings pageTags !! ref = Some b /\
                 navigateOf b = defaultNavigate) /\
    flush pageTags = Returned st' /\
    window st'
    = Some {| listeners := [0];
              history :=
                {| search := [("page", "2"); ("q", "rocq");
                              ("tag", "a"); ("tag", "b")];
                   replaced :=
                     [[("page", "2"); ("q", "rocq");
                       ("tag", "a"); ("tag", "b")];
                      [("page", "2"); ("q", "rocq");
                       ("tag", "a"); ("tag", "b")]] |} |} /\
    ticks st' = [] /\ flush st' = Returned st'.
Proof.
  pose (w := {| listeners := [0];
                history := {| search := [("tag", "z"); ("page", "2");
                                         ("tag", "y")];
                              replaced := [] |} |}).
  assert (W : window pageTags = Some w) by (vm_compute; reflexivity).
  assert (Ht : ticks pageTags = [0; 1]) by (vm_compute; reflexivity).
  assert (Hne : ticks pageTags <> []) by (rewrite Ht; discriminate).
  assert (Hall : forall ref, ref ∈ ticks pageTags ->
            exists b, bindings pageTags !! ref = Some b /\
                      navigateOf b = defaultNavigate).
  { intros ref Hin. rewrite Ht in Hin.
    apply elem_of_cons in Hin as [->|Hin].
    - eexists. split; vm_compute; reflexivity.
    - apply elem_of_cons in Hin as [->|Hin].
      + eexists. split; vm_compute; reflexivity.
      + by apply not_elem_of_nil in Hin. }
  destruct (flush_replaces_history_with_latest pageTags w W Hne Hall)
    as (st' & E & Hw & Hticks & _ & _ & Hagain).
  exists w, st'. split; [exact W|]. split; [exact Hne|].
  split; [exact Hall|]. split; [exact E|].
  split; [|split; [exact Hticks|exact Hagain]].
  rewrite Hw. vm_compute. reflexivity.
Defined.

Lemma refs_stay_valid_witness :
  exists b st' b',
    bindings pageTwins !! 0 = Some b /\
    run [Set_ 0 "x"; Popstate [("q", "y")]; Flush; SetArray 2 []] pageTwins
      = Returned st' /\
    bindings st' !! 0 = Some b' /\ sameRef b b'.
Proof.
  pose (b := Scalar {| name := "q"; serializer := text;
                       navigate := defaultNavigate;
                       writableValue := @None string;
                       readableValue := ""; watching := true;
                       triggered := 0 |}).
  set (st' := settled (run [Set_ 0 "x"; Popstate [("q", "y")]; Flush;
                            SetArray 2 []] pageTwins)).
  assert (Hb : bindings pageTwins !! 0 = Some b) by (vm_compute; reflexivity).
  assert (E : run [Set_ 0 "x"; Popstate [("q", "y")]; Flush; SetArray 2 []]
                pageTwins = Returned st') by (vm_compute; reflexivity).
  destruct (refs_stay_valid _ pageTwins st' 0 b E Hb) as (b' & Hb' & Hsame).
  exists b, st', b'. split; [exact Hb|]. split; [exact E|].
  split; [exact Hb'|exact Hsame].
Defined.

Lemma run_never_throws_witness :
  reachable pageServer /\
  run [Set_ 0 (Some "x"); Flush; Use "b" identity defaultNavigate None;
       Popstate []; Stop 0] pageServer <> Threw.
Proof.
  split; [exact pageServer_reachable|].
  exact (run_never_throws _ pageServer pageServer_reachable).
Defined.

Lemma reachable_invariants_witness :
  (reachable pageServer /\ isClient pageServer = false /\
   isListeningPopsate pageServer = false /\ ticks pageServer = [] /\
   forall i b, bindings pageServer !! i = Some b -> isWatching b = false) /\
  (reachable pageTags /\
   (forall ref, ref ∈ ticks pageTags -> is_Some (bindings pageTags !! ref)) /\
   exists b, bindings pageTags !! 1 = Some b /\ isWatching b = true /\
             coherent (searchParams pageTags) b).
Proof.
  split.
  - assert (C : isClient pageServer = false) by (vm_compute; reflexivity).
    destruct (reachable_invariants pageServer pageServer_reachable)
      as (Hserver & _ & _).
    destruct (Hserver C) as (L & Ht & Hw).
    split; [exact pageServer_reachable|]. split; [exact C|].
    split; [exact L|]. split; [exact Ht|exact Hw].
  - destruct (reachable_invariants pageTags pageTags_reachable)
      as (_ & Hticks & Hstep).
    split; [exact pageTags_reachable|]. split; [exact Hticks|].
    pose (b := Array {| name := "tag"; serializer := identityItem;
                        navigate := defaultNavigate;
                        writableValue := ["a"; "b"];
                        readableValue := ["a"; "b"];
                        watching := true; triggered := 1 |}).
    assert (Hb : bindings pageTags !! 1 = Some b)
      by (vm_compute; reflexivity).
    exists b. split; [exact Hb|]. split; [reflexivity|].
    exact (Hstep 1 b Hb eq_refl).
Defined.

Lemma factories_initialise_from_shared_state_witness :
  exists b st',
    bindings pageFoo !! 0 = Some b /\
    useSearchParam "foo" identity defaultNavigate None pageFoo
      = Returned (length (bindings pageFoo), st') /\
    useSearchParam_get (length (bindings pageFoo)) st'
      = Some (URLSearchParams.get "foo" (searchParams pageFoo)) /\
    bindings st' !! 0 = Some b /\
    searchParams st' = searchParams pageFoo.
Proof.
  pose (b := Scalar {| name := "foo"; serializer := identity;
                       navigate := defaultNavigate;
                       writableValue := @None string;
                       readableValue := @None string;
                       watching := true; triggered := 0 |}).
  assert (Hb : bindings pageFoo !! 0 = Some b) by (vm_compute; reflexivity).
  destruct (proj1 (factories_initialise_from_shared_state pageFoo "foo"
                     defaultNavigate None) identity)
    as (st' & E & Hget & Hold & Hp & _).
  exists b, st'. split; [exact Hb|]. split; [exact E|].
  split; [exact Hget|]. split; [exact (Hold 0 b Hb)|exact Hp].
Defined.

(** ** Writes and the caches of other refs *)

Section Guard.

Context {T : Type}.
Implicit Types (b : Binding (T := T)) (st : State (T := T)).

Lemma set_own_record st ref c v :
  bindings st !! ref = Some (Scalar c) ->
  strictEq (write (serializer c) v) (writableValue c) = false ->
  exists st',
    useSearchParam_set ref v st = Returned st' /\
    bindings st' !! ref = Some (Scalar (assign c v (write (serializer c) v))).
Proof.
  intros Hb E.
  destruct (useSearchParam_set_changed st ref c v Hb E)
    as (st' & Eset & Hp & Hbs & _).
  exists st'. split; [done|].
  rewrite Hbs, list_lookup_fmap, list_lookup_insert_eq
    by (by eapply lookup_lt_Some).
  simpl. f_equal. rewrite Hp. apply onSearchParams_own_scalar.
Qed.

Lemma setArray_own_record st ref c vs :
  bindings st !! ref = Some (Array c) ->
  isEqualArrays (map (write (serializer c)) vs) (writableValue c) = false ->
  exists st',
    useSearchParamArray_set ref vs st = Returned st' /\
    bindings st' !! ref
    = Some (Array (assign c vs (map (write (serializer c)) vs))).
Proof.
  intros Hb E.
  destruct (useSearchParamArray_set_changed st ref c vs Hb E)
    as (st' & Eset & Hp & Hbs & _).
  exists st'. split; [done|].
  rewrite Hbs, list_lookup_fmap, list_lookup_insert_eq
    by (by eapply lookup_lt_Some).
  simpl. f_equal. rewrite Hp. apply onSearchParams_own_array.
Qed.

(** The setters are idempotent: writing the same value a second time,
    right after the first, returns the state unchanged (nothing notified,
    nothing queued), whether or not the first write passed the guard. *)
Theorem setters_are_idempotent st ref st' :
  (forall v, useSearchParam_set ref v st = Returned st' ->
             useSearchParam_set ref v st' = Returned st') /\
  (forall vs, useSearchParamArray_set ref vs st = Returned st' ->
              useSearchParamArray_set ref vs st' = Returned st').
Proof.
  split.
  - intros v E.
    destruct (bindings st !! ref) as [[c|c]|] eqn:Hb;
      try (unfold useSearchParam_set in E; by rewrite Hb in E).
    destruct (strictEq (write (serializer c) v) (writableValue c)) eqn:G.
    + unfold useSearchParam_set in E. rewrite Hb, G in E.
      injection E as <-. unfold useSearchParam_set. by rewrite Hb, G.
    + destruct (set_own_record st ref c v Hb G) as (st2 & E2 & Hown).
      rewrite E in E2. injection E2 as <-.
      unfold useSearchParam_set. rewrite Hown. simpl.
      by rewrite (proj2 (strictEq_true _ _) eq_refl).
  - intros vs E.
    destruct (bindings st !! ref) as [[c|c]|] eqn:Hb;
      try (unfold useSearchParamArray_set in E; by rewrite Hb in E).
    destruct (isEqualArrays (map (write (serializer c)) vs) (writableValue c))
      eqn:G.
    + unfold useSearchParamArray_set in E. rewrite Hb, G in E.
      injection E as <-. unfold useSearchParamArray_set. by rewrite Hb, G.
    + destruct (setArray_own_record st ref c vs Hb G) as (st2 & E2 & Hown).
      rewrite E in E2. injection E2 as <-.
      unfold useSearchParamArray_set. rewrite Hown. simpl.
      by rewrite (proj2 (isEqualArrays_true _ _) eq_refl).
Qed.

(** In every state the module can reach, a ref with a live watcher that is
    written with the value the shared state already holds for its name does
    nothing: the guard compares against a cache the watcher keeps up to
    date, also after navigation events and writes through other refs. *)
Theorem writing_the_shared_value_is_noop st ref :
  reachable st ->
  (forall c v,
     bindings st !! ref = Some (Scalar c) -> watching c = true ->
     write (serializer c) v = URLSearchParams.get (name c) (searchParams st) ->
     useSearchParam_set ref v st = Returned st) /\
  (forall c vs,
     bindings st !! ref = Some (Array c) -> watching c = true ->
     map (write (serializer c)) vs
       = URLSearchParams.getAll (name c) (searchParams st) ->
     useSearchParamArray_set ref vs st = Returned st).
Proof.
  intros Hr. split.
  - intros c v Hb W Hv.
    pose proof (reachable_inStep st Hr ref (Scalar c) Hb W) as Hsame.
    simpl in Hsame. apply strictEq_true in Hsame.
    unfold useSearchParam_set. rewrite Hb, Hv, Hsame.
    by rewrite (proj2 (strictEq_true _ _) eq_refl).
  - intros c vs Hb W Hv.
    pose proof (reachable_inStep st Hr ref (Array c) Hb W) as Hsame.
    simpl in Hsame. apply isEqualArrays_true in Hsame.
    unfold useSearchParamArray_set. rewrite Hb, Hv, Hsame.
    by rewrite (proj2 (isEqualArrays_true _ _) eq_refl).
Qed.


(** Without a window no watcher exists, so a write is seen by the ref it
    goes through and by no other: every other ref, of the same name or not,
    keeps its caches and its notification count. *)
Theorem server_writes_stay_local st i j b :
  reachable st -> isClient st = false -> i <> j ->
  bindings st !! j = Some b ->
  (forall v st', useSearchParam_set i v st = Returned st' ->
                 bindings st' !! j = Some b) /\
  (forall vs st', useSearchParamArray_set i vs st = Returned st' ->
                  bindings st' !! j = Some b).
Proof.
  intros Hr C Hij Hj.
  assert (isWatching b = false) as Hw
    by (by apply (proj1 (reachable_refs st Hr) C j)).
  split.
  - intros v st' E.
    destruct (bindings st !! i) as [[c|c]|] eqn:Hb;
      try (unfold useSearchParam_set in E; by rewrite Hb in E).
    destruct (strictEq (write (serializer c) v) (writableValue c)) eqn:G.
    { unfold useSearchParam_set in E. rewrite Hb, G in E. by injection E as <-. }
    destruct (useSearchParam_set_changed st i c v Hb G)
      as (st2 & E2 & _ & Hbs & _).
    rewrite E in E2. injection E2 as <-.
    rewrite Hbs, list_lookup_fmap, list_lookup_insert_ne, Hj by done.
    simpl. f_equal. by apply onSearchParams_unwatched.
  - intros vs st' E.
    destruct (bindings st !! i) as [[c|c]|] eqn:Hb;
      try (unfold useSearchParamArray_set in E; by rewrite Hb in E).
    destruct (isEqualArrays (map (write (serializer c)) vs) (writableValue c))
      eqn:G.
    { unfold useSearchParamArray_set in E. rewrite Hb, G in E.
      by injection E as <-. }
    destruct (useSearchParamArray_set_changed st i c vs Hb G)
      as (st2 & E2 & _ & Hbs & _).
    rewrite E in E2. injection E2 as <-.
    rewrite Hbs, list_lookup_fmap, list_lookup_insert_ne, Hj by done.
    simpl. f_equal. by apply onSearchParams_unwatched.
Qed.

End Guard.

Lemma pageServerTwins_reachable : reachable pageServerTwins.
Proof. apply settled_reachable. vm_compute. reflexivity. Qed.

Lemma setters_are_idempotent_witness :
  exists st',
    useSearchParam_set 0 "x" pageTwins = Returned st' /\
    st' <> pageTwins /\
    useSearchParam_set 0 "x" st' = Returned st'.
Proof.
  set (st' := settled (useSearchParam_set 0 "x" pageTwins)).
  assert (E : useSearchParam_set 0 "x" pageTwins = Returned st')
    by (vm_compute; reflexivity).
  exists st'. split; [exact E|]. split.
  - intros Heq. assert (ticks st' = ticks pageTwins) as Ht by (by rewrite Heq).
    vm_compute in Ht. discriminate.
  - exact (proj1 (setters_are_idempotent pageTwins 0 st') "x" E).
Defined.

Lemma writing_the_shared_value_is_noop_witness :
  exists st c,
    run [Popstate [("q", "new")]] pageTwins = Returned st /\
    reachable st /\
    bindings st !! 0 = Some (Scalar c) /\ watching c = true /\
    write (serializer c) "new"
      = URLSearchParams.get (name c) (searchParams st) /\
    useSearchParam_set 0 "new" st = Returned st.
Proof.
  set (st := settled (run [Popstate [("q", "new")]] pageTwins)).
  pose (c := {| name := "q"; serializer := text;
                navigate := defaultNavigate; writableValue := Some "new";
                readableValue := "new"; watching := true; triggered := 1 |}).
  assert (E : run [Popstate [("q", "new")]] pageTwins = Returned st)
    by (vm_compute; reflexivity).
  assert (Hr : reachable st)
    by (exact (run_reachable _ pageTwins st pageTwins_reachable E)).
  assert (Hb : bindings st !! 0 = Some (Scalar c))
    by (vm_compute; reflexivity).
  assert (Hv : write (serializer c) "new"
               = URLSearchParams.get (name c) (searchParams st))
    by (vm_compute; reflexivity).
  exists st, c. split; [exact E|]. split; [exact Hr|]. split; [exact Hb|].
  split; [reflexivity|]. split; [exact Hv|].
  exact (proj1 (writing_the_shared_value_is_noop st 0 Hr) c "new" Hb
           eq_refl Hv).
Defined.


Lemma server_writes_stay_local_witness :
  exists b st',
    reachable pageServerTwins /\ isClient pageServerTwins = false /\
    0 <> 1 /\ bindings pageServerTwins !! 1 = Some b /\
    useSearchParam_set 0 (Some "x") pageServerTwins = Returned st' /\
    URLSearchParams.get "foo" (searchParams st') = Some "x" /\
    bindings st' !! 1 = Some b /\
    useSearchParam_get 1 st' = Some None.
Proof.
  pose (b := Scalar {| name := "foo"; serializer := identity;
                       navigate := defaultNavigate;
                       writableValue := @None string;
                       readableValue := @None string;
                       watching := false; triggered := 0 |}).
  set (st' := settled (useSearchParam_set 0 (Some "x") pageServerTwins)).
  assert (C : isClient pageServerTwins = false) by (vm_compute; reflexivity).
  assert (Hne : 0 <> 1) by lia.
  assert (Hb : bindings pageServerTwins !! 1 = Some b)
    by (vm_compute; reflexivity).
  assert (E : useSearchParam_set 0 (Some "x") pageServerTwins = Returned st')
    by (vm_compute; reflexivity).
  assert (Hget : URLSearchParams.get "foo" (searchParams st') = Some "x")
    by (vm_compute; reflexivity).
  pose proof (proj1 (server_writes_stay_local pageServerTwins 0 1 b
                       pageServerTwins_reachable C Hne Hb) (Some "x") st' E)
    as Hb'.
  exists b, st'. split; [exact pageServerTwins_reachable|].
  split; [exact C|]. split; [exact Hne|]. split; [exact Hb|].
  split; [exact E|]. split; [exact Hget|]. split; [exact Hb'|].
  unfold useSearchParam_get. rewrite Hb'. reflexivity.
Defined.

(** ** The scope a ref is created in *)

Lemma watchers_app cs cs' : watchers (cs ++ cs') = watchers cs ++ watchers cs'.
Proof. apply flat_map_app. Qed.

Lemma scopes_dispose_lookup (ss : list Scope) s0 c s :
  alter (onScopeDispose c) s0 ss !! s
  = (fun sc => if decide (s = s0) then onScopeDispose c sc else sc) <$> ss !! s.
Proof.
  destruct (decide (s = s0)) as [->|Hne].
  - by rewrite list_lookup_alter_eq.
  - rewrite list_lookup_alter_ne by done. by destruct (ss !! s).
Qed.

Section Ownership.

Context {T : Type}.
Implicit Types (b : Binding (T := T)) (st : State (T := T)).
Implicit Types (e : Event (T := T)).

Lemma run_cons_inv e (es : list Event) st st' :
  run (e :: es) st = Returned st' ->
  exists st1, exec e st = Returned st1 /\ run es st1 = Returned st'.
Proof.
  unfold run. simpl. destruct (exec e st) as [st1| |]; simpl.
  - eauto.
  - intros H. exfalso. revert H. clear. induction es; simpl; [done|auto].
  - intros H. exfalso. revert H. clear. induction es; simpl; [done|auto].
Qed.

(** A hook registered in a scope: it never touches whether scopes run, and
    it adds to the watchers of the scope only if it is a watcher. *)
Lemma inScope_at scope c st s :
  activeAt s (inScope scope c st) = activeAt s st /\
  watchersAt s (inScope scope c st)
  = watchersAt s st ++
    (if decide (scope = Some s)
     then (if scopes st !! s is Some _ then watchers [c] else [])
     else []).
Proof.
  unfold activeAt, watchersAt. destruct scope as [s0|]; simpl.
  - rewrite scopes_dispose_lookup.
    destruct (decide (s = s0)) as [->|Hne].
    + rewrite decide_True by done.
      destruct (scopes st !! s0) as [sc|]; simpl; [|done].
      by rewrite watchers_app.
    + rewrite decide_False by congruence.
      destruct (scopes st !! s) as [sc|]; simpl; by rewrite ?app_nil_r.
  - by rewrite app_nil_r.
Qed.

Lemma listenPopstate_at scope st st' s :
  listenPopstate scope st = Returned st' ->
  activeAt s st' = activeAt s st /\ watchersAt s st' = watchersAt s st.
Proof.
  unfold listenPopstate.
  destruct (negb (isClient st) || isListeningPopsate st);
    [by intros [= <-]|].
  simpl. destruct (window st) as [w|]; [|done]. intros [= <-].
  match goal with
  | |- context [inScope scope ?c ?st0] =>
      destruct (inScope_at scope c st0 s) as [Ha Hw]
  end.
  rewrite Ha, Hw. unfold activeAt, watchersAt. simpl.
  split; [done|].
  destruct (decide (scope = Some s)); destruct (scopes st !! s); simpl;
    by rewrite ?app_nil_r.
Qed.

Lemma watch_at ref scope st s :
  running scope st = true ->
  activeAt s (watch ref scope st) = activeAt s st /\
  watchersAt s (watch ref scope st)
  = watchersAt s st ++
    (if isClient st then if decide (scope = Some s) then [ref] else []
     else []).
Proof.
  intros Hrun. unfold watch. destruct (isClient st).
  - destruct (inScope_at scope (StopWatch ref) st s) as [Ha Hw].
    rewrite Ha, Hw. split; [done|].
    destruct (decide (scope = Some s)) as [->|]; [|done].
    simpl in Hrun. by destruct (scopes st !! s).
  - by rewrite app_nil_r.
Qed.

(** A factory call: on the client the watcher of the new ref goes to the
    scope the call is made in, and to no other. *)
Lemma create_at e scope st st' s :
  createdIn e = Some scope -> exec e st = Returned st' ->
  activeAt s st' = activeAt s st /\
  watchersAt s st'
  = watchersAt s st ++
    (if isClient st
     then if decide (scope = Some s) then [length (bindings st)] else []
     else []) /\
  length (bindings st') = S (length (bindings st)) /\
  exists b0, bindings st' !! length (bindings st) = Some b0 /\
             isWatching b0 = isClient st.
Proof.
  destruct e as [|n ser nav sc|n ser nav sc|ref v|ref v|loc| |s0]; try done;
    simpl; intros [= <-]; destruct (running sc st) eqn:Hrun; try done.
  - unfold useSearchParam.
    match goal with
    | |- context [listenPopstate sc (watch ?r sc ?st0)] =>
        destruct (watch_at r sc st0 s Hrun) as [Ha Hw];
        destruct (listenPopstate_returns sc (watch r sc st0))
          as (st2 & E & Hb & _);
        destruct (listenPopstate_at sc (watch r sc st0) st2 s E) as [Ha2 Hw2];
        pose proof (proj1 (proj2 (proj2 (watch_frame r sc st0)))) as Hb0
    end.
    rewrite E. simpl. intros [= <-].
    rewrite Ha2, Hw2, Ha, Hw, Hb, Hb0. simpl.
    split; [done|]. split; [done|]. rewrite length_app. simpl.
    split; [lia|]. eexists. split; [by apply list_lookup_middle|done].
  - unfold useSearchParamArray.
    match goal with
    | |- context [listenPopstate sc (watch ?r sc ?st0)] =>
        destruct (watch_at r sc st0 s Hrun) as [Ha Hw];
        destruct (listenPopstate_returns sc (watch r sc st0))
          as (st2 & E & Hb & _);
        destruct (listenPopstate_at sc (watch r sc st0) st2 s E) as [Ha2 Hw2];
        pose proof (proj1 (proj2 (proj2 (watch_frame r sc st0)))) as Hb0
    end.
    rewrite E. simpl. intros [= <-].
    rewrite Ha2, Hw2, Ha, Hw, Hb, Hb0. simpl.
    split; [done|]. split; [done|]. rewrite length_app. simpl.
    split; [lia|]. eexists. split; [by apply list_lookup_middle|done].
Qed.

Lemma at_same_scopes st st' s :
  scopes st' = scopes st ->
  activeAt s st' = activeAt s st /\ watchersAt s st' = watchersAt s st.
Proof. unfold activeAt, watchersAt. by intros ->. Qed.

Lemma cleanups_scopes cs st st' :
  foldl runCleanup (Returned st) cs = Returned st' -> scopes st' = scopes st.
Proof.
  revert st. induction cs as [|[l|r] cs IH]; intros st; simpl.
  - by intros [= <-].
  - destruct (window st) as [w|].
    + intros E. by rewrite (IH _ E).
    + by rewrite cleanups_threw.
  - intros E. by rewrite (IH _ E).
Qed.

(** The scopes along one event: a running scope keeps running unless it is
    the one stopped, and its watchers grow only by the ref a factory call
    made in it creates on the client. *)
Lemma exec_at e st st' s :
  exec e st = Returned st' ->
  (e <> Stop s ->
     (activeAt s st = true -> activeAt s st' = true) /\
     watchersAt s st'
     = watchersAt s st ++
       (if isClient st
        then if decide (createdIn e = Some (Some s))
             then [length (bindings st)] else []
        else [])) /\
  (e = Stop s ->
     watchersAt s st' = [] \/ watchersAt s st' = watchersAt s st).
Proof.
  assert (forall x : State (T := T),
            scopes x = scopes st ->
            ((activeAt s st = true -> activeAt s x = true) /\
             watchersAt s x = watchersAt s st ++ [])) as Hsame.
  { intros x Hx. destruct (at_same_scopes st x s Hx) as [-> ->].
    by rewrite app_nil_r. }
  destruct e as [|n ser nav sc|n ser nav sc|ref v|ref v|loc| |s0].
  - simpl. intros [= <-]. split; [intros _|done].
    destruct (isClient st); simpl; unfold activeAt, watchersAt; simpl.
    + destruct (scopes st !! s) as [x|] eqn:Hs.
      * rewrite (lookup_app_l_Some _ _ _ _ Hs). by rewrite app_nil_r.
      * split; [done|]. rewrite app_nil_r.
        destruct ((scopes st ++ [{| active := true; cleanups := [] |}]) !! s)
          as [x|] eqn:Hs'; [|done].
        apply lookup_app_Some in Hs' as [Hs'|[_ Hs']]; [congruence|].
        by apply list_lookup_singleton_Some in Hs' as [_ <-].
    + destruct (scopes st !! s) as [x|] eqn:Hs.
      * rewrite (lookup_app_l_Some _ _ _ _ Hs). by rewrite app_nil_r.
      * split; [done|]. rewrite app_nil_r.
        destruct ((scopes st ++ [{| active := true; cleanups := [] |}]) !! s)
          as [x|] eqn:Hs'; [|done].
        apply lookup_app_Some in Hs' as [Hs'|[_ Hs']]; [congruence|].
        by apply list_lookup_singleton_Some in Hs' as [_ <-].
  - intros E. split; [intros _|done].
    destruct (create_at (Use n ser nav sc) sc st st' s eq_refl E)
      as (Ha & Hw & _).
    rewrite Ha, Hw. split; [done|]. simpl.
    destruct (isClient st); [|done].
    destruct (decide (sc = Some s)) as [->|Hne].
    + by rewrite decide_True.
    + rewrite decide_False; [done|]. congruence.
  - intros E. split; [intros _|done].
    destruct (create_at (UseArray n ser nav sc) sc st st' s eq_refl E)
      as (Ha & Hw & _).
    rewrite Ha, Hw. split; [done|]. simpl.
    destruct (isClient st); [|done].
    destruct (decide (sc = Some s)) as [->|Hne].
    + by rewrite decide_True.
    + rewrite decide_False; [done|]. congruence.
  - simpl. intros E. split; [intros _|done].
    assert (scopes st' = scopes st) as Hs.
    { destruct (bindings st !! ref) as [[c|c]|] eqn:Hb;
        try (unfold useSearchParam_set in E; by rewrite Hb in E).
      destruct (strictEq (write (serializer c) v) (writableValue c)) eqn:G.
      - unfold useSearchParam_set in E. rewrite Hb, G in E.
        by injection E as <-.
      - destruct (useSearchParam_set_changed st ref c v Hb G)
          as (st2 & E2 & _ & _ & _ & _ & _ & _ & Hs & _).
        rewrite E in E2. by injection E2 as <-. }
    destruct (Hsame st' Hs) as [Ha Hw]. split; [done|].
    rewrite Hw. by destruct (isClient st).
  - simpl. intros E. split; [intros _|done].
    assert (scopes st' = scopes st) as Hs.
    { destruct (bindings st !! ref) as [[c|c]|] eqn:Hb;
        try (unfold useSearchParamArray_set in E; by rewrite Hb in E).
      destruct (isEqualArrays (map (write (serializer c)) v)
                  (writableValue c)) eqn:G.
      - unfold useSearchParamArray_set in E. rewrite Hb, G in E.
        by injection E as <-.
      - destruct (useSearchParamArray_set_changed st ref c v Hb G)
          as (st2 & E2 & _ & _ & _ & _ & _ & _ & Hs & _).
        rewrite E in E2. by injection E2 as <-. }
    destruct (Hsame st' Hs) as [Ha Hw]. split; [done|].
    rewrite Hw. by destruct (isClient st).
  - simpl. unfold popstate. destruct (window st) as [w|] eqn:W; [|done].
    match goal with |- context [Returned ?x] => set (st1 := x) end.
    destruct (dispatch_returns (listeners w) st1 _ eq_refl)
      as (st2 & -> & _ & _ & Hs & _).
    intros [= <-]. split; [intros _|done].
    destruct (Hsame st2 Hs) as [Ha Hw]. split; [done|].
    rewrite Hw. by destruct (isClient st).
  - simpl. unfold flush. intros E. split; [intros _|done].
    assert (scopes st' = scopes st) as Hs.
    { destruct (ticks st); [by injection E as <-|].
      destruct (window st); [|done]. by injection E as <-. }
    destruct (Hsame st' Hs) as [Ha Hw]. split; [done|].
    rewrite Hw. by destruct (isClient st).
  - simpl. unfold stop. destruct (scopes st !! s0) as [sc|] eqn:Hs0; [|done].
    destruct (active sc) eqn:Hact.
    + intros E. apply cleanups_scopes in E. simpl in E.
      unfold activeAt, watchersAt. rewrite E. split.
      * intros Hne. assert (s0 <> s) as Hne' by congruence.
        rewrite list_lookup_insert_ne by done.
        split; [done|]. destruct (isClient st); by rewrite app_nil_r.
      * intros [= ->]. left.
        by rewrite list_lookup_insert_eq by (by eapply lookup_lt_Some).
    + intros [= <-]. split.
      * intros _. split; [done|]. destruct (isClient st); by rewrite app_nil_r.
      * intros _. by right.
Qed.

Lemma dispatch_watching (ls : list nat) st st' r b :
  foldl (fun o _ => bind o onPopstate) (Returned st) ls = Returned st' ->
  bindings st !! r = Some b ->
  exists b', bindings st' !! r = Some b' /\ isWatching b' = isWatching b.
Proof.
  revert st b. induction ls as [|l ls IH]; intros st b; simpl.
  - intros [= <-] Hb. by exists b.
  - unfold onPopstate at 2. destruct (window st) as [w|].
    + intros E Hb.
      destruct (IH _ (onSearchParams (search (history w)) b) E)
        as (b' & Hb' & Hw').
      { rewrite triggerRef_lookup. simpl. by rewrite Hb. }
      exists b'. split; [done|]. by rewrite Hw', onSearchParams_watching.
    + intros E. exfalso. revert E. clear. induction ls; simpl; [done|auto].
Qed.

(** A watcher stays as it is along one event, unless the event stops a
    running scope that holds it. *)
Lemma exec_watching e st st' r b :
  exec e st = Returned st' -> bindings st !! r = Some b ->
  exists b',
    bindings st' !! r = Some b' /\
    (isWatching b' = isWatching b \/
     exists s0, e = Stop s0 /\ activeAt s0 st = true /\
                r ∈ watchersAt s0 st /\ b' = unwatch b).
Proof.
  intros E Hb.
  destruct e as [|n ser nav sc|n ser nav sc|ref v|ref v|loc| |s0]; simpl in E.
  - injection E as <-. exists b. split; [done|by left].
  - destruct (running sc st); [|done].
    destruct (useSearchParam_effect n ser nav sc st) as (st2 & E2 & Hbs & _).
    rewrite E2 in E. simpl in E. injection E as <-.
    exists b. split; [rewrite Hbs; by apply lookup_app_l_Some|by left].
  - destruct (running sc st); [|done].
    destruct (useSearchParamArray_effect n ser nav sc st)
      as (st2 & E2 & Hbs & _).
    rewrite E2 in E. simpl in E. injection E as <-.
    exists b. split; [rewrite Hbs; by apply lookup_app_l_Some|by left].
  - destruct (bindings st !! ref) as [[c|c]|] eqn:Href;
      try (unfold useSearchParam_set in E; by rewrite Href in E).
    destruct (strictEq (write (serializer c) v) (writableValue c)) eqn:G.
    { unfold useSearchParam_set in E. rewrite Href, G in E.
      injection E as <-. exists b. split; [done|by left]. }
    destruct (useSearchParam_set_changed st ref c v Href G)
      as (st2 & E2 & _ & Hbs & _).
    rewrite E in E2. injection E2 as <-. rewrite Hbs, list_lookup_fmap.
    destruct (decide (r = ref)) as [->|Hne].
    + rewrite list_lookup_insert_eq by (by eapply lookup_lt_Some).
      eexists. split; [reflexivity|]. left.
      rewrite onSearchParams_watching. rewrite Href in Hb.
      by injection Hb as <-.
    + rewrite list_lookup_insert_ne, Hb by done.
      eexists. split; [reflexivity|]. left. apply onSearchParams_watching.
  - destruct (bindings st !! ref) as [[c|c]|] eqn:Href;
      try (unfold useSearchParamArray_set in E; by rewrite Href in E).
    destruct (isEqualArrays (map (write (serializer c)) v) (writableValue c))
      eqn:G.
    { unfold useSearchParamArray_set in E. rewrite Href, G in E.
      injection E as <-. exists b. split; [done|by left]. }
    destruct (useSearchParamArray_set_changed st ref c v Href G)
      as (st2 & E2 & _ & Hbs & _).
    rewrite E in E2. injection E2 as <-. rewrite Hbs, list_lookup_fmap.
    destruct (decide (r = ref)) as [->|Hne].
    + rewrite list_lookup_insert_eq by (by eapply lookup_lt_Some).
      eexists. split; [reflexivity|]. left.
      rewrite onSearchParams_watching. rewrite Href in Hb.
      by injection Hb as <-.
    + rewrite list_lookup_insert_ne, Hb by done.
      eexists. split; [reflexivity|]. left. apply onSearchParams_watching.
  - unfold popstate in E. destruct (window st) as [w|]; [|done].
    destruct (dispatch_watching _ _ _ r b E Hb) as (b' & Hb' & Hw').
    exists b'. split; [done|by left].
  - unfold flush in E. destruct (ticks st).
    + injection E as <-. exists b. split; [done|by left].
    + destruct (window st); [|done]. injection E as <-.
      exists b. split; [done|by left].
  - unfold stop in E. destruct (scopes st !! s0) as [sc|] eqn:Hs0; [|done].
    destruct (active sc) eqn:Hact.
    + apply cleanups_bindings in E. simpl in E.
      rewrite E, stopWatchers_lookup, Hb. simpl.
      destruct (decide (r ∈ watchers (cleanups sc))) as [Hin|Hnin].
      * exists (unwatch b). split; [done|]. right. exists s0.
        unfold activeAt, watchersAt. rewrite Hs0. done.
      * exists b. split; [done|by left].
    + injection E as <-. exists b. split; [done|by left].
Qed.

Lemma exec_length e st st' :
  exec e st = Returned st' -> length (bindings st) <= length (bindings st').
Proof.
  intros E. destruct (exec_shape st e st' E) as [[Hl _]|(b0 & -> & _)].
  - lia.
  - rewrite length_app. simpl. lia.
Qed.

Lemma stop_or_not e s : e = Stop s \/ e <> Stop s.
Proof.
  destruct e as [| | | | | | |s0]; try (by right).
  destruct (decide (s0 = s)) as [->|Hne]; [by left|].
  right. congruence.
Qed.

(** Every watcher a scope holds belongs to a ref that exists. *)
Lemma reachable_fresh st s r :
  reachable st -> r ∈ watchersAt s st -> r < length (bindings st).
Proof.
  intros Hr. revert r.
  induction Hr as [location|st e st' _ IH E]; intros r Hin.
  - unfold watchersAt in Hin. simpl in Hin. by apply not_elem_of_nil in Hin.
  - pose proof (exec_length e st st' E) as Hlen.
    destruct (exec_at e st st' s E) as [Hgrow Hstop].
    destruct (stop_or_not e s) as [->|Hne].
    + destruct (Hstop eq_refl) as [Hw|Hw]; rewrite Hw in Hin.
      * by apply not_elem_of_nil in Hin.
      * specialize (IH r Hin). lia.
    + destruct (Hgrow Hne) as [_ Hw]. rewrite Hw in Hin.
      apply elem_of_app in Hin as [Hin|Hin]; [specialize (IH r Hin); lia|].
      destruct (isClient st); [|by apply not_elem_of_nil in Hin].
      destruct (decide (createdIn e = Some (Some s))) as [Hc|];
        [|by apply not_elem_of_nil in Hin].
      apply elem_of_cons in Hin as [->|Hin];
        [|by apply not_elem_of_nil in Hin].
      destruct (create_at e (Some s) st st' s Hc E) as (_ & _ & Hl & _). lia.
Qed.

(** As long as its scope is not stopped, a ref stays among the watchers of
    the scope it was created in, among those of no other scope, and its
    watcher stays live. *)
Lemma run_owner (es : list Event) s r st1 st2 b1 :
  Forall (fun e => e <> Stop s) es ->
  run es st1 = Returned st2 ->
  activeAt s st1 = true -> r ∈ watchersAt s st1 ->
  (forall s0, s0 <> s -> r ∉ watchersAt s0 st1) ->
  bindings st1 !! r = Some b1 -> isWatching b1 = true ->
  activeAt s st2 = true /\ r ∈ watchersAt s st2 /\
  exists b2, bindings st2 !! r = Some b2 /\ isWatching b2 = true.
Proof.
  revert st1 b1. induction es as [|e es IH]; intros st1 b1 Hall Hrun Ha Hin
    Hothers Hb Hw.
  - unfold run in Hrun. simpl in Hrun. injection Hrun as <-. eauto.
  - inversion Hall as [|? ? Hne Hall']; subst. clear Hall.
    rename Hall' into Hall.
    destruct (run_cons_inv e es st1 st2 Hrun) as (st & E & Hrest).
    destruct (exec_at e st1 st s E) as [Hgrow _].
    destruct (Hgrow Hne) as [Hact Hws].
    destruct (exec_watching e st1 st r b1 E Hb) as (b & Hb' & Hcase).
    apply (IH st b); try done.
    + by apply Hact.
    + rewrite Hws. apply elem_of_app. by left.
    + intros s0 Hs0 Hin0.
      destruct (exec_at e st1 st s0 E) as [Hgrow0 Hstop0].
      destruct (stop_or_not e s0) as [He|He].
      * destruct (Hstop0 He) as [H0|H0]; rewrite H0 in Hin0.
        -- by apply not_elem_of_nil in Hin0.
        -- by apply (Hothers s0).
      * destruct (Hgrow0 He) as [_ H0]. rewrite H0 in Hin0.
        apply elem_of_app in Hin0 as [Hin0|Hin0]; [by apply (Hothers s0)|].
        destruct (isClient st1); [|by apply not_elem_of_nil in Hin0].
        destruct (decide (createdIn e = Some (Some s0)));
          [|by apply not_elem_of_nil in Hin0].
        apply elem_of_cons in Hin0 as [->|Hin0];
          [|by apply not_elem_of_nil in Hin0].
        apply lookup_lt_Some in Hb. lia.
    + destruct Hcase as [->|(s0 & -> & _ & Hin0 & _)]; [done|].
      exfalso. apply (Hothers s0); [|done]. congruence.
Qed.

(** A ref that is not among the watchers of a scope never gets there. *)
Lemma run_not_owner (es : list Event) s r st1 st2 :
  run es st1 = Returned st2 ->
  r < length (bindings st1) -> r ∉ watchersAt s st1 ->
  r ∉ watchersAt s st2.
Proof.
  revert st1. induction es as [|e es IH]; intros st1 Hrun Hlt Hnin.
  - unfold run in Hrun. simpl in Hrun. by injection Hrun as <-.
  - destruct (run_cons_inv e es st1 st2 Hrun) as (st & E & Hrest).
    apply (IH st Hrest).
    + pose proof (exec_length e st1 st E). lia.
    + intros Hin. destruct (exec_at e st1 st s E) as [Hgrow Hstop].
      destruct (stop_or_not e s) as [He|He].
      * destruct (Hstop He) as [H0|H0]; rewrite H0 in Hin.
        -- by apply not_elem_of_nil in Hin.
        -- done.
      * destruct (Hgrow He) as [_ H0]. rewrite H0 in Hin.
        apply elem_of_app in Hin as [Hin|Hin]; [done|].
        destruct (isClient st1); [|by apply not_elem_of_nil in Hin].
        destruct (decide (createdIn e = Some (Some s)));
          [|by apply not_elem_of_nil in Hin].
        apply elem_of_cons in Hin as [->|Hin];
          [lia|by apply not_elem_of_nil in Hin].
Qed.

(** A ref created on the client by a factory call made in scope [s] keeps
    a live watcher through every later event that does not stop [s];
    stopping [s] then returns, takes the watcher of that ref away for good
    (the ref ignores every later trigger) and leaves the shared state and
    the tick queue alone, and stopping [s] once more does nothing.  A ref
    created in another scope, or outside any scope, is left exactly as it
    is by stopping [s], whatever happened in between. *)
Theorem scope_disposal_stops_its_own_refs
    st e0 scope st1 (es : list Event) st2 s :
  reachable st -> createdIn e0 = Some scope ->
  exec e0 st = Returned st1 -> run es st1 = Returned st2 ->
  (isClient st = true -> scope = Some s ->
   Forall (fun e => e <> Stop s) es ->
   exists b st3,
     bindings st2 !! length (bindings st) = Some b /\ isWatching b = true /\
     stop s st2 = Returned st3 /\ stop s st3 = Returned st3 /\
     bindings st3 !! length (bindings st) = Some (unwatch b) /\
     (forall p, onSearchParams p (unwatch b) = unwatch b) /\
     searchParams st3 = searchParams st2 /\ ticks st3 = ticks st2) /\
  (scope <> Some s ->
   forall st3, stop s st2 = Returned st3 ->
     bindings st3 !! length (bindings st)
     = bindings st2 !! length (bindings st)).
Proof.
  intros Hr Hc E0 Hrun.
  assert (forall s0, length (bindings st) ∉ watchersAt s0 st) as Hfresh.
  { intros s0 Hin. pose proof (reachable_fresh st s0 _ Hr Hin). lia. }
  assert (reachable st2) as Hr2.
  { eapply run_reachable; [|exact Hrun]. by eapply reachable_exec. }
  split.
  - intros C -> Hall.
    destruct (create_at e0 (Some s) st st1 s Hc E0)
      as (Ha & Hw & _ & b1 & Hb1 & Hw1).
    rewrite C in Hw, Hw1. rewrite decide_True in Hw by done.
    assert (activeAt s st = true) as Hact.
    { destruct e0 as [|n ser nav sc|n ser nav sc| | | | |]; try done;
        simpl in Hc; injection Hc as ->; simpl in E0;
        unfold activeAt; simpl in E0;
        destruct (scopes st !! s) as [sc|]; try done;
        by destruct (active sc). }
    destruct (run_owner es s (length (bindings st)) st1 st2 b1 Hall Hrun)
      as (Ha2 & Hin2 & b2 & Hb2 & Hw2); try done.
    + by rewrite Ha.
    + rewrite Hw. apply elem_of_app. right. by left.
    + intros s0 Hs0 Hin.
      destruct (create_at e0 (Some s) st st1 s0 Hc E0) as (_ & Hw0 & _).
      rewrite Hw0, C, decide_False, app_nil_r in Hin by congruence.
      by apply (Hfresh s0).
    + unfold activeAt in Ha2. unfold watchersAt in Hin2.
      destruct (scopes st2 !! s) as [sc|] eqn:Hs; [|done].
      destruct (stop_releases_watchers st2 s sc Hr2 Hs Ha2)
        as (st3 & E & Eagain & Hp & Ht & Hrefs & _).
      exists b2, st3. do 4 (split; [done|]).
      split; [by apply (Hrefs _ b2 Hb2)|]. split; [|done].
      intros p. apply onSearchParams_unwatched, isWatching_unwatch.
  - intros Hne st3 E.
    destruct (create_at e0 scope st st1 s Hc E0) as (_ & Hw & Hlen & _).
    assert (length (bindings st) ∉ watchersAt s st2) as Hnin.
    { apply (run_not_owner es s _ st1 st2 Hrun); [lia|].
      rewrite Hw. intros Hin. apply elem_of_app in Hin as [Hin|Hin].
      - by apply (Hfresh s).
      - destruct (isClient st); [|by apply not_elem_of_nil in Hin].
        rewrite decide_False in Hin by done.
        by apply not_elem_of_nil in Hin. }
    unfold stop in E. unfold watchersAt in Hnin.
    destruct (scopes st2 !! s) as [sc|]; [|done].
    destruct (active sc); [|by injection E as <-].
    apply cleanups_bindings in E. simpl in E.
    rewrite E, stopWatchers_lookup, decide_False by done.
    by destruct (bindings st2 !! length (bindings st)).
Qed.

End Ownership.

Lemma scope_disposal_stops_its_own_refs_witness :
  (exists (st st1 st2 : State (T := option string)) b st3,
     run [NewScope; NewScope] (boot (Some [])) = Returned st /\
     reachable st /\ isClient st = true /\
     createdIn (Use "a" identity defaultNavigate (Some 1)) = Some (Some 1) /\
     exec (Use "a" identity defaultNavigate (Some 1)) st = Returned st1 /\
     Forall (fun e => e <> Stop 1)
       [Use "b" identity defaultNavigate (Some 0); Set_ 1 (Some "x");
        Stop 0; Popstate [("a", "1")]] /\
     run [Use "b" identity defaultNavigate (Some 0); Set_ 1 (Some "x");
          Stop 0; Popstate [("a", "1")]] st1 = Returned st2 /\
     bindings st2 !! 0 = Some b /\ isWatching b = true /\
     stop 1 st2 = Returned st3 /\ stop 1 st3 = Returned st3 /\
     bindings st3 !! 0 = Some (unwatch b)) /\
  (exists (st st1 st2 st3 : State (T := option string)),
     run [NewScope; NewScope] (boot (Some [])) = Returned st /\
     reachable st /\
     createdIn (Use "a" identity defaultNavigate None) = Some None /\
     None <> Some 1 /\
     exec (Use "a" identity defaultNavigate None) st = Returned st1 /\
     run [Use "b" identity defaultNavigate (Some 1)] st1 = Returned st2 /\
     stop 1 st2 = Returned st3 /\
     bindings st3 !! 0 = bindings st2 !! 0 /\
     isWatching <$> bindings st3 !! 0 = Some true /\
     isWatching <$> bindings st3 !! 1 = Some false).
Proof.
  pose (st := ltac:(let x := eval vm_compute in
                      (settled (run [NewScope; NewScope]
                                  (boot (T := option string) (Some []))))
                    in exact x)).
  assert (Hst : run [NewScope; NewScope] (boot (Some [])) = Returned st)
    by (vm_compute; reflexivity).
  assert (Hr : reachable st)
    by (exact (run_reachable _ _ st (reachable_boot _) Hst)).
  split.
  - pose (st1 := ltac:(let x := eval vm_compute in
                         (settled (exec (Use "a" identity defaultNavigate
                                           (Some 1)) st))
                       in exact x)).
    pose (st2 := ltac:(let x := eval vm_compute in
                         (settled
                            (run [Use "b" identity defaultNavigate (Some 0);
                                  Set_ 1 (Some "x"); Stop 0;
                                  Popstate [("a", "1")]] st1))
                       in exact x)).
    assert (C : isClient st = true) by (vm_compute; reflexivity).
    assert (E0 : exec (Use "a" identity defaultNavigate (Some 1)) st
                 = Returned st1) by (vm_compute; reflexivity).
    assert (Hrun : run [Use "b" identity defaultNavigate (Some 0);
                        Set_ 1 (Some "x"); Stop 0; Popstate [("a", "1")]] st1
                   = Returned st2) by (vm_compute; reflexivity).
    assert (Hall : Forall (fun e : Event (T := option string) => e <> Stop 1)
                     [Use "b" identity defaultNavigate (Some 0);
                      Set_ 1 (Some "x"); Stop 0; Popstate [("a", "1")]])
      by (repeat (constructor; [discriminate|]); constructor).
    destruct (proj1 (scope_disposal_stops_its_own_refs st
                       (Use "a" identity defaultNavigate (Some 1)) (Some 1)
                       st1 _ st2 1 Hr eq_refl E0 Hrun) C eq_refl Hall)
      as (b & st3 & Hb & Hw & E & Eagain & Hb3 & _).
    exists st, st1, st2, b, st3. split; [exact Hst|]. split; [exact Hr|].
    split; [exact C|]. split; [reflexivity|]. split; [exact E0|].
    split; [exact Hall|]. split; [exact Hrun|]. split; [exact Hb|].
    split; [exact Hw|]. split; [exact E|]. split; [exact Eagain|exact Hb3].
  - pose (st1 := ltac:(let x := eval vm_compute in
                         (settled (exec (Use "a" identity defaultNavigate
                                           None) st))
                       in exact x)).
    pose (st2 := ltac:(let x := eval vm_compute in
                         (settled
                            (run [Use "b" identity defaultNavigate (Some 1)]
                               st1))
                       in exact x)).
    pose (st3 := ltac:(let x := eval vm_compute in (settled (stop 1 st2))
                       in exact x)).
    assert (E0 : exec (Use "a" identity defaultNavigate None) st
                 = Returned st1) by (vm_compute; reflexivity).
    assert (Hrun : run [Use "b" identity defaultNavigate (Some 1)] st1
                   = Returned st2) by (vm_compute; reflexivity).
    assert (E : stop 1 st2 = Returned st3) by (vm_compute; reflexivity).
    assert (Hne : @None nat <> Some 1) by discriminate.
    pose proof (proj2 (scope_disposal_stops_its_own_refs st
                         (Use "a" identity defaultNavigate None) None
                         st1 _ st2 1 Hr eq_refl E0 Hrun) Hne st3 E) as Hsame.
    exists st, st1, st2, st3. split; [exact Hst|]. split; [exact Hr|].
    split; [reflexivity|]. split; [exact Hne|]. split; [exact E0|].
    split; [exact Hrun|]. split; [exact E|]. split; [exact Hsame|].
    split; vm_compute; reflexivity.
Defined.
